(** * dustman: the auto-close decision engine of [background.js]

    A shallow embedding of [tabsToClose], [saveableTab] and the history
    update of [autoclose] (src/background.js), with the properties the
    specification states about them.

    Modelling conventions.
    - JavaScript numbers are modelled by [jsnum]: an integer number of
      milliseconds ([Fin]), the two infinities and NaN.  Epoch timestamps
      and the settings are integers far below 2^53, where double
      arithmetic is exact.  A missing property ([undefined]) is [None];
      [ToNumber undefined] is NaN and every comparison with NaN is false.
    - A JavaScript exception (the only ones possible here are the
      [TypeError] of reading a property of [undefined] and the one thrown
      by [new URL]) is the [None] of an [option] result.
    - [Array.prototype.sort] and [URL] belong to the host, not to the
      repository; they are interfaces ([SortEngine], [UrlParser]) with
      concrete instances further down. *)

From Stdlib Require Import String Ascii.
From Stdlib Require Import ZArith List Bool Lia Permutation Sorted.
Import ListNotations.
Open Scope Z_scope.

(** ** JavaScript numbers *)

Inductive jsnum : Type :=
| Fin (z : Z)
| PInf
| NInf
| NaN.

(** [ToNumber] of a possibly missing numeric property. *)
Definition to_number (v : option jsnum) : jsnum :=
  match v with
  | Some n => n
  | None => NaN
  end.

(** [a < b] *)
Definition js_lt (a b : jsnum) : bool :=
  match a, b with
  | NaN, _ | _, NaN => false
  | Fin x, Fin y => x <? y
  | NInf, NInf => false
  | NInf, _ => true
  | _, NInf => false
  | PInf, _ => false
  | Fin _, PInf => true
  end.

(** [a >= b] *)
Definition js_ge (a b : jsnum) : bool :=
  match a, b with
  | NaN, _ | _, NaN => false
  | Fin x, Fin y => y <=? x
  | PInf, _ => true
  | _, NInf => true
  | NInf, _ => false
  | Fin _, PInf => false
  end.

(** [a > b] *)
Definition js_gt (a b : jsnum) : bool := js_lt b a.

(** [a <= b] *)
Definition js_le (a b : jsnum) : bool := js_ge b a.

(** [a + b] *)
Definition js_add (a b : jsnum) : jsnum :=
  match a, b with
  | NaN, _ | _, NaN => NaN
  | PInf, NInf | NInf, PInf => NaN
  | PInf, _ | _, PInf => PInf
  | NInf, _ | _, NInf => NInf
  | Fin x, Fin y => Fin (x + y)
  end.

(** [a - b] *)
Definition js_sub (a b : jsnum) : jsnum :=
  match a, b with
  | NaN, _ | _, NaN => NaN
  | PInf, PInf | NInf, NInf => NaN
  | PInf, _ | _, NInf => PInf
  | NInf, _ | _, PInf => NInf
  | Fin x, Fin y => Fin (x - y)
  end.

(** One step of [Math.min]. *)
Definition js_min (a b : jsnum) : jsnum :=
  match a, b with
  | NaN, _ | _, NaN => NaN
  | NInf, _ | _, NInf => NInf
  | PInf, x | x, PInf => x
  | Fin x, Fin y => Fin (Z.min x y)
  end.

(** [Math.min.apply(null, l)]: [Infinity] for no argument. *)
Definition Math_min (l : list jsnum) : jsnum := fold_right js_min PInf l.

(** ** Data model *)

(** [browser.tabs.Tab], the fields the background script reads. *)
Record Tab : Type := {
  id : Z;
  windowId : Z;
  lastAccessed : option jsnum;
  pinned : bool;
  audible : bool;
  incognito : bool;
  groupId : option Z;
  title : option string;
  url : option string;
  favIconUrl : option string
}.

Record Settings : Type := {
  minInactiveMilliseconds : Z;
  minTabsCount : Z;
  maxHistorySize : Z;
  clearHistoryOnExit : bool;
  excludeTabsInGroups : bool
}.

Record ClosedPageInfo : Type := {
  page_title : option string;
  page_url : option string;
  page_favIconUrl : option string
}.

(** The object [{tabsToClose, nextCheck}] returned per window and by
    [tabsToClose] itself. *)
Record CloseInfo : Type := {
  res_tabsToClose : list Tab;
  res_nextCheck : jsnum
}.

(** ** Host interfaces *)

(** [Array.prototype.sort(comparefn)].  The comparator's result reaches the
    engine after [ToNumber]; the engine answers with a rearrangement of the
    array.  ECMAScript leaves the order to the implementation when the
    comparator is not a consistent one. *)
Class SortEngine : Type := {
  array_sort : forall A : Type, (A -> A -> Z) -> list A -> list A;
  array_sort_perm :
    forall (A : Type) (comparefn : A -> A -> Z) (l : list A),
      Permutation l (array_sort A comparefn l)
}.
Arguments array_sort {_} [A] comparefn l.

(** [new URL(s).protocol]; [None] when the constructor throws. *)
Class UrlParser : Type := {
  url_protocol : string -> option string
}.

(** ** [tabsToClose] *)

(** [Array.from(new Set(xs))]: the distinct values in order of first
    insertion. *)
Definition set_add (seen : list Z) (x : Z) : list Z :=
  if existsb (Z.eqb x) seen then seen else seen ++ [x].

Definition array_from_set (xs : list Z) : list Z := fold_left set_add xs [].

(** [tab.lastAccessed + settings.minInactiveMilliseconds] *)
Definition threshold (settings : Settings) (tab : Tab) : jsnum :=
  js_add (to_number (lastAccessed tab)) (Fin (minInactiveMilliseconds settings)).

(** The callback of [unpinnedTabs.filter] (lines 148-158). *)
Definition closeable (settings : Settings) (tab : Tab) : bool :=
  if audible tab || js_ge (to_number (lastAccessed tab)) PInf then false
  else if excludeTabsInGroups settings
          && match groupId tab with Some _ => true | None => false end
          && match groupId tab with Some g => negb (g =? -1) | None => true end
       then false
       else true.

(** The comparator [(t1, t2) => t1.lastAccessed > t2.lastAccessed], after
    [ToNumber]: [true] is 1 and [false] is 0. *)
Definition lastAccessed_gt (t1 t2 : Tab) : Z :=
  if js_gt (to_number (lastAccessed t1)) (to_number (lastAccessed t2))
  then 1 else 0.

Section Decision.
Context {engine : SortEngine}.

(** The callback of [tabsByWindow.map] (lines 139-175). *)
Definition perWindowResult (now : Z) (settings : Settings)
    (tabs : list Tab) : option CloseInfo :=
  let unpinnedTabs := filter (fun tab => negb (pinned tab)) tabs in
  let numTabsToClose :=
    Z.of_nat (length unpinnedTabs) - minTabsCount settings in
  if numTabsToClose <=? 0 then
    Some {| res_tabsToClose := []; res_nextCheck := PInf |}
  else
    let closeableTabs :=
      array_sort lastAccessed_gt (filter (closeable settings) unpinnedTabs) in
    let nowCloseableTabs :=
      filter (fun tab => js_lt (threshold settings tab) (Fin now))
             closeableTabs in
    let onlyLaterCloseableTabs :=
      filter (fun tab => js_ge (threshold settings tab) (Fin now))
             closeableTabs in
    let tabsToClose := firstn (Z.to_nat numTabsToClose) nowCloseableTabs in
    if (Z.of_nat (length tabsToClose) =? numTabsToClose)
       || (length onlyLaterCloseableTabs =? 0)%nat
    then Some {| res_tabsToClose := tabsToClose; res_nextCheck := PInf |}
    else
      match onlyLaterCloseableTabs with
      | [] => None
      | first :: _ =>
          Some {| res_tabsToClose := tabsToClose;
                  res_nextCheck := threshold settings first |}
      end.

(** [xs.map(f)] for a callback that may throw. *)
Fixpoint map_exn {A B : Type} (f : A -> option B) (xs : list A)
    : option (list B) :=
  match xs with
  | [] => Some []
  | x :: rest =>
      match f x with
      | None => None
      | Some y =>
          match map_exn f rest with
          | None => None
          | Some ys => Some (y :: ys)
          end
      end
  end.

Definition tabsByWindow (tabs : list Tab) : list (list Tab) :=
  let windowIds := array_from_set (map windowId tabs) in
  map (fun w => filter (fun tab => windowId tab =? w) tabs) windowIds.

Definition perWindowResults (now : Z) (settings : Settings)
    (tabs : list Tab) : option (list CloseInfo) :=
  map_exn (perWindowResult now settings) (tabsByWindow tabs).

Definition tabsToClose (now : Z) (settings : Settings) (tabs : list Tab)
    : option CloseInfo :=
  match perWindowResults now settings tabs with
  | None => None
  | Some results =>
      Some {| res_tabsToClose := concat (map res_tabsToClose results);
              res_nextCheck := Math_min (map res_nextCheck results) |}
  end.
End Decision.

(** ** [saveableTab] and the history update of [autoclose] *)

Definition unsaveable_protocols : list string :=
  ["chrome:"; "javascript:"; "data:"; "file:"; "about:"]%string.

(** [{title: tab.title, url: tab.url, favIconUrl: tab.favIconUrl}] *)
Definition closedPage (tab : Tab) : ClosedPageInfo :=
  {| page_title := title tab;
     page_url := url tab;
     page_favIconUrl := favIconUrl tab |}.

(** [xs.filter(f)] for a callback that may throw. *)
Fixpoint filter_exn {A : Type} (f : A -> option bool) (xs : list A)
    : option (list A) :=
  match xs with
  | [] => Some []
  | x :: rest =>
      match f x with
      | None => None
      | Some keep =>
          match filter_exn f rest with
          | None => None
          | Some ys => Some (if keep then x :: ys else ys)
          end
      end
  end.

Section History.
Context {parser : UrlParser}.

Definition saveableTab (tab : Tab) : option bool :=
  match title tab, url tab with
  | Some _, Some u =>
      match url_protocol u with
      | None => None
      | Some protocol =>
          if existsb (String.eqb protocol) unsaveable_protocols then Some false
          else if incognito tab then Some false
          else Some true
      end
  | _, _ => Some false
  end.

(** The body of the callback run once the tabs are removed (lines
    233-239): the new value of [state.history]. *)
Definition autoclose_history (settings : Settings)
    (tabsToClose_ : list Tab) (history : list ClosedPageInfo)
    : option (list ClosedPageInfo) :=
  if 0 <? maxHistorySize settings then
    match filter_exn saveableTab tabsToClose_ with
    | None => None
    | Some saved =>
        Some (firstn (Z.to_nat (maxHistorySize settings))
                     (map closedPage saved ++ history))
    end
  else Some history.
End History.

(** ** Two sort engines

    Both follow published engine code on a generic comparator.
    [insertion_sort] is the insertion sort SpiderMonkey runs on short
    arrays: an element moves left past each neighbour [swap] with
    [comparefn(swap, item) > 0].  [timsort_short] is the front end of V8's
    TimSort, which is the whole algorithm below 64 elements: the initial
    run is found with the test [comparefn(current, previous) < 0] and the
    remaining elements are placed by a binary search that tests
    [comparefn(pivot, element) < 0]. *)

Section SortAlgorithms.
Context {A : Type} (comparefn : A -> A -> Z).

(** [rev_sorted] is the sorted prefix read from right to left. *)
Fixpoint insert_back (item : A) (rev_sorted : list A) : list A :=
  match rev_sorted with
  | [] => [item]
  | swap :: rest =>
      if comparefn swap item <=? 0 then item :: rev_sorted
      else swap :: insert_back item rest
  end.

Definition insertion_sort (l : list A) : list A :=
  rev (fold_left (fun rev_sorted item => insert_back item rev_sorted) l []).

(** How many more elements continue the run that ends in [previous]. *)
Fixpoint run_tail (descending : bool) (previous : A) (rest : list A) : nat :=
  match rest with
  | [] => O
  | current :: rest' =>
      let order := comparefn current previous in
      if (if descending then 0 <=? order else order <? 0) then O
      else S (run_tail descending current rest')
  end.

(** The initial run, made ascending, and the elements after it. *)
Definition count_run_and_make_ascending (l : list A) : list A * list A :=
  match l with
  | low :: second :: rest =>
      let descending := comparefn second low <? 0 in
      let run_length := S (S (run_tail descending second rest)) in
      let run := firstn run_length l in
      (if descending then rev run else run, skipn run_length l)
  | _ => (l, [])
  end.

Fixpoint binary_search (fuel : nat) (pivot : A) (sorted : list A)
    (left right : nat) : nat :=
  match fuel with
  | O => left
  | S fuel' =>
      if (left <? right)%nat then
        let mid := (left + (right - left) / 2)%nat in
        match nth_error sorted mid with
        | None => left
        | Some element =>
            if comparefn pivot element <? 0
            then binary_search fuel' pivot sorted left mid
            else binary_search fuel' pivot sorted (S mid) right
        end
      else left
  end.

Definition binary_insert (sorted : list A) (pivot : A) : list A :=
  let position :=
    binary_search (S (length sorted)) pivot sorted O (length sorted) in
  firstn position sorted ++ pivot :: skipn position sorted.

Definition timsort_short (l : list A) : list A :=
  let (run, rest) := count_run_and_make_ascending l in
  fold_left binary_insert rest run.

End SortAlgorithms.

(** A parser for the scheme of an absolute URL: a letter, then letters,
    digits, [+], [-] or [.] up to the first colon; the protocol is the
    scheme in lower case with the colon.  Anything else throws. *)
Definition is_upper (c : ascii) : bool :=
  let n := nat_of_ascii c in ((65 <=? n) && (n <=? 90))%nat.

Definition is_lower (c : ascii) : bool :=
  let n := nat_of_ascii c in ((97 <=? n) && (n <=? 122))%nat.

Definition is_digit (c : ascii) : bool :=
  let n := nat_of_ascii c in ((48 <=? n) && (n <=? 57))%nat.

Definition lower_case (c : ascii) : ascii :=
  if is_upper c then ascii_of_nat (nat_of_ascii c + 32) else c.

Fixpoint scheme_tail (s : string) : option string :=
  match s with
  | EmptyString => None
  | String c rest =>
      if Ascii.eqb c ":" then Some ":"%string
      else if is_upper c || is_lower c || is_digit c
              || Ascii.eqb c "+" || Ascii.eqb c "-" || Ascii.eqb c "."
      then option_map (String (lower_case c)) (scheme_tail rest)
      else None
  end.

Definition scheme_protocol (s : string) : option string :=
  match s with
  | EmptyString => None
  | String c rest =>
      if is_upper c || is_lower c
      then option_map (String (lower_case c)) (scheme_tail rest)
      else None
  end.

Definition scheme_parser : UrlParser := {| url_protocol := scheme_protocol |}.

(** ** Sample data *)

Definition mkTab (i w : Z) (la : option jsnum) : Tab :=
  {| id := i; windowId := w; lastAccessed := la; pinned := false;
     audible := false; incognito := false; groupId := None;
     title := None; url := None; favIconUrl := None |}.

Definition mkSettings (inactive minTabs history : Z) : Settings :=
  {| minInactiveMilliseconds := inactive; minTabsCount := minTabs;
     maxHistorySize := history; clearHistoryOnExit := true;
     excludeTabsInGroups := false |}.

(** Window 1 closes tab 1 and has no budget left for tab 2; window 2 waits
    for tab 3. *)
Definition two_windows : list Tab :=
  [mkTab 1 1 (Some (Fin 100)); mkTab 2 1 (Some (Fin 450));
   mkTab 3 2 (Some (Fin 500)); mkTab 4 2 (Some (Fin 600))].

Definition page_a : ClosedPageInfo :=
  {| page_title := Some "A"%string;
     page_url := Some "https://a.example/"%string;
     page_favIconUrl := None |}.

Definition tab_b : Tab :=
  {| id := 7; windowId := 1; lastAccessed := Some (Fin 0); pinned := false;
     audible := false; incognito := false; groupId := None;
     title := Some "B"%string; url := Some "https://b.example/"%string;
     favIconUrl := None |}.

(** ** The specification's wording

    Definitions that follow the text of the specification, to be compared
    with the definitions taken from the code. *)

(** The next wake as the specification words it: the minimum over the
    windows of the window's next wake taken as a duration from [now]. *)
Definition nextWakeAfter_spec {engine : SortEngine} (now : Z)
    (settings : Settings) (tabs : list Tab) : option jsnum :=
  option_map
    (fun results =>
       Math_min (map (fun r => js_sub (res_nextCheck r) (Fin now)) results))
    (perWindowResults now settings tabs).

(** Tightness as the specification words it, for a delay [d] from [now]:
    no tab still to cross its threshold crosses it before [now + d], and
    some tab crosses it at [now + d]. *)
Definition next_wake_tight (now : Z) (settings : Settings) (tabs : list Tab)
    (d : Z) : Prop :=
  (forall tab z,
     In tab tabs -> threshold settings tab = Fin z -> now <= z -> now + d <= z)
  /\ exists tab, In tab tabs /\ threshold settings tab = Fin (now + d).

Definition next_wake_tightness (engine : SortEngine) (now : Z)
    (settings : Settings) (tabs : list Tab) : Prop :=
  forall r d,
    tabsToClose now settings tabs = Some r ->
    res_nextCheck r = Fin d ->
    next_wake_tight now settings tabs d.

(** The "no group" sentinel: [null], [undefined] or [-1]. *)
Definition no_group (g : option Z) : bool :=
  match g with
  | None => true
  | Some g => g =? -1
  end.

Definition known_and_finite (v : option jsnum) : bool :=
  match v with
  | Some (Fin _) => true
  | _ => false
  end.

(** The candidate predicate as the specification words it. *)
Definition isCandidate_spec (settings : Settings) (tab : Tab) : bool :=
  negb (audible tab)
  && known_and_finite (lastAccessed tab)
  && (if excludeTabsInGroups settings then no_group (groupId tab) else true).

Section HistoryWording.
Context {parser : UrlParser}.

(** The filter for saving as the specification words it: title and URL
    present, the scheme none of the five excluded ones, not incognito.  (A
    URL without a scheme has none of the excluded ones.) *)
Definition saveable_spec (tab : Tab) : bool :=
  match title tab, url tab with
  | Some _, Some u =>
      negb (match url_protocol u with
            | Some protocol =>
                existsb (String.eqb protocol) unsaveable_protocols
            | None => false
            end)
      && negb (incognito tab)
  | _, _ => false
  end.

(** The accumulator as the specification words it:
    [(closedRecords ++ oldHistory).truncate(maxHistorySize)]. *)
Definition newHistory_spec (settings : Settings) (closed : list Tab)
    (oldHistory : list ClosedPageInfo) : list ClosedPageInfo :=
  firstn (Z.to_nat (maxHistorySize settings))
         (map closedPage (filter saveable_spec closed) ++ oldHistory).

(** [new URL(tab.url)] does not throw where [saveableTab] calls it. *)
Definition url_parses (tab : Tab) : bool :=
  match title tab, url tab with
  | Some _, Some u =>
      match url_protocol u with
      | Some _ => true
      | None => false
      end
  | _, _ => true
  end.

End HistoryWording.

(** ** Auxiliary predicates *)

(** A per-window next check is [Infinity] or an instant. *)
Definition is_wake (v : jsnum) : Prop := v = PInf \/ exists z, v = Fin z.

(** What a window's result is made of: every closed tab is an unpinned
    tab of the window that passed the filter and is past its threshold,
    at most the budget is closed, and a finite next check is the
    threshold of a filtered tab that is still to come. *)
Record window_ok (now : Z) (settings : Settings) (tabs : list Tab)
    (r : CloseInfo) : Prop := {
  closed_ok :
    Forall (fun tab => In tab tabs /\ pinned tab = false
                       /\ closeable settings tab = true
                       /\ js_lt (threshold settings tab) (Fin now) = true)
           (res_tabsToClose r);
  budget_ok :
    Z.of_nat (length (res_tabsToClose r))
    <= Z.max 0 (Z.of_nat (length (filter (fun tab => negb (pinned tab)) tabs))
                - minTabsCount settings);
  next_ok :
    res_nextCheck r = PInf
    \/ exists tab, In tab tabs /\ pinned tab = false
                   /\ closeable settings tab = true
                   /\ js_ge (threshold settings tab) (Fin now) = true
                   /\ res_nextCheck r = threshold settings tab
}.

(** ** Persistent state: [loadState], [persistSettings], [persistHistory]

    [browser.storage.local] holds two items, [settings] and [history].  A
    settings object read back from storage may lack fields, and one written
    by an early version carries the flag [saveClosedPages]. *)

Record StoredSettings : Type := {
  stored_minInactiveMilliseconds : option Z;
  stored_minTabsCount : option Z;
  stored_maxHistorySize : option Z;
  stored_clearHistoryOnExit : option bool;
  stored_excludeTabsInGroups : option bool;
  stored_saveClosedPages : option bool
}.

Record Storage : Type := {
  item_settings : option StoredSettings;
  item_history : option (list ClosedPageInfo)
}.

Definition defaultSettings : Settings :=
  {| minInactiveMilliseconds := 20 * 60 * 1000;
     minTabsCount := 5;
     maxHistorySize := 1000;
     clearHistoryOnExit := true;
     excludeTabsInGroups := false |}.

(** A settings object with every field present, as an object in storage. *)
Definition stored (settings : Settings) : StoredSettings :=
  {| stored_minInactiveMilliseconds := Some (minInactiveMilliseconds settings);
     stored_minTabsCount := Some (minTabsCount settings);
     stored_maxHistorySize := Some (maxHistorySize settings);
     stored_clearHistoryOnExit := Some (clearHistoryOnExit settings);
     stored_excludeTabsInGroups := Some (excludeTabsInGroups settings);
     stored_saveClosedPages := None |}.

(** The settings the decision engine computes with, when no field it reads
    is missing. *)
Definition complete (settings : StoredSettings) : option Settings :=
  match stored_minInactiveMilliseconds settings, stored_minTabsCount settings,
        stored_maxHistorySize settings, stored_clearHistoryOnExit settings,
        stored_excludeTabsInGroups settings with
  | Some inactive, Some tabs, Some size, Some clear, Some groups =>
      Some {| minInactiveMilliseconds := inactive; minTabsCount := tabs;
              maxHistorySize := size; clearHistoryOnExit := clear;
              excludeTabsInGroups := groups |}
  | _, _, _, _, _ => None
  end.

(** The object [loadState] resolves with. *)
Record LoadedState : Type := {
  loaded_settings : StoredSettings;
  loaded_history : list ClosedPageInfo;
  loaded_autocloseTimeoutId : Z;
  loaded_paused : bool
}.

(** Lines 64-71: the flag of the early versions becomes a history size. *)
Definition migrate_saveClosedPages (settings : StoredSettings)
    : StoredSettings :=
  match stored_saveClosedPages settings with
  | Some flag =>
      {| stored_minInactiveMilliseconds :=
           stored_minInactiveMilliseconds settings;
         stored_minTabsCount := stored_minTabsCount settings;
         stored_maxHistorySize :=
           Some (if flag then maxHistorySize defaultSettings else 0);
         stored_clearHistoryOnExit := stored_clearHistoryOnExit settings;
         stored_excludeTabsInGroups := stored_excludeTabsInGroups settings;
         stored_saveClosedPages := None |}
  | None => settings
  end.

(** Lines 73-79: the two flags added later get their defaults. *)
Definition default_flags (settings : StoredSettings) : StoredSettings :=
  {| stored_minInactiveMilliseconds := stored_minInactiveMilliseconds settings;
     stored_minTabsCount := stored_minTabsCount settings;
     stored_maxHistorySize := stored_maxHistorySize settings;
     stored_clearHistoryOnExit :=
       match stored_clearHistoryOnExit settings with
       | Some flag => Some flag
       | None => Some (clearHistoryOnExit defaultSettings)
       end;
     stored_excludeTabsInGroups :=
       match stored_excludeTabsInGroups settings with
       | Some flag => Some flag
       | None => Some (excludeTabsInGroups defaultSettings)
       end;
     stored_saveClosedPages := stored_saveClosedPages settings |}.

(** [got] is what [browser.storage.local.get()] settles with: the items, or
    [None] when the promise is rejected. *)
Definition loadState (got : option Storage) : LoadedState :=
  let state :=
    match got with
    | Some items => items
    | None => {| item_settings := Some (stored defaultSettings);
                 item_history := None |}
    end in
  let settings :=
    match item_settings state with
    | Some settings => settings
    | None => stored defaultSettings
    end in
  let history :=
    match item_history state with
    | Some history => history
    | None => []
    end in
  {| loaded_settings := default_flags (migrate_saveClosedPages settings);
     loaded_history := history;
     loaded_autocloseTimeoutId := 0;
     loaded_paused := false |}.

(** The state the background script runs on. *)
Record State : Type := {
  st_settings : Settings;
  st_autocloseTimeoutId : Z;
  st_paused : bool;
  st_history : list ClosedPageInfo
}.

(** The loaded state, when the engine can compute with its settings. *)
Definition running (loaded : LoadedState) : option State :=
  match complete (loaded_settings loaded) with
  | Some settings =>
      Some {| st_settings := settings;
              st_autocloseTimeoutId := loaded_autocloseTimeoutId loaded;
              st_paused := loaded_paused loaded;
              st_history := loaded_history loaded |}
  | None => None
  end.

(** [browser.storage.local.set({settings: settings})] *)
Definition persistSettings (settings : StoredSettings) (storage : Storage)
    : Storage :=
  {| item_settings := Some settings; item_history := item_history storage |}.

Definition persistHistory (state : State) (storage : Storage) : Storage :=
  if negb (clearHistoryOnExit (st_settings state)) then
    {| item_settings := item_settings storage;
       item_history := Some (st_history state) |}
  else
    {| item_settings := item_settings storage; item_history := None |}.

(** ** [autoclose] and the listeners of the background script *)

(** [l.slice(0, end)] for an integer [end]: a negative [end] counts from
    the end of the array. *)
Definition slice0 {A : Type} (l : list A) (finish : Z) : list A :=
  if finish <? 0
  then firstn (Z.to_nat (Z.max (Z.of_nat (length l) + finish) 0)) l
  else firstn (Z.to_nat finish) l.

(** What the script sees and changes of the browser: the tabs of the
    normal windows, the alarm named [autoclose] and the local storage.  The
    alarm is kept as the number of milliseconds [nextCheck - now + 1000]
    that line 228 divides by 1000 and by 60. *)
Record Browser : Type := {
  open_tabs : list Tab;
  alarm : option jsnum;
  storage : Storage
}.

(** [browser.tabs.remove(ids)] *)
Definition tabs_remove (ids : list Z) (tabs : list Tab) : list Tab :=
  filter (fun tab => negb (existsb (Z.eqb (id tab)) ids)) tabs.

(** How the promise returned by [autoclose] settles. *)
Inductive Outcome : Type :=
| Resolved
| Rejected.

Section Autoclose.
Context {engine : SortEngine} {parser : UrlParser}.

(** [now] is [new Date().getTime()] at the time the tabs are queried.
    [browser.tabs.remove] is taken to succeed, closing the tabs with the
    ids it is given; the third component tells whether the promise chain
    ran to its end or stopped at an exception. *)
Definition autoclose (now : Z) (state : State) (browser : Browser)
    : State * Browser * Outcome :=
  let cleared :=
    {| open_tabs := open_tabs browser; alarm := None;
       storage := storage browser |} in
  if st_paused state then (state, cleared, Resolved)
  else
    match tabsToClose now (st_settings state) (open_tabs cleared) with
    | None => (state, cleared, Rejected)
    | Some decision =>
        let nextCheck := res_nextCheck decision in
        let tabsToClose_ := res_tabsToClose decision in
        let scheduled :=
          if js_lt nextCheck PInf
          then Some (js_add (js_sub nextCheck (Fin now)) (Fin 1000))
          else None in
        let removed := tabs_remove (map id tabsToClose_) (open_tabs cleared) in
        if 0 <? maxHistorySize (st_settings state) then
          match autoclose_history (st_settings state) tabsToClose_
                  (st_history state) with
          | None =>
              (state,
               {| open_tabs := removed; alarm := scheduled;
                  storage := storage cleared |},
               Rejected)
          | Some history =>
              let state' :=
                {| st_settings := st_settings state;
                   st_autocloseTimeoutId := st_autocloseTimeoutId state;
                   st_paused := st_paused state;
                   st_history := history |} in
              (state',
               {| open_tabs := removed; alarm := scheduled;
                  storage :=
                    if negb (clearHistoryOnExit (st_settings state))
                    then persistHistory state' (storage cleared)
                    else storage cleared |},
               Resolved)
          end
        else
          (state,
           {| open_tabs := removed; alarm := scheduled;
              storage := storage cleared |},
           Resolved)
    end.

(** The events the script listens to (lines 288-323).  [TabUpdated] carries
    the two properties the listener reads from its argument. *)
Inductive Event : Type :=
| ActionClicked
| TabCreated
| TabAttached
| TabUpdated (changed_pinned changed_audible : option bool)
| StorageChanged (newSettings : option Settings)
| AlarmFired (name : string).

Definition with_settings (settings : Settings) (state : State) : State :=
  {| st_settings := settings;
     st_autocloseTimeoutId := st_autocloseTimeoutId state;
     st_paused := st_paused state;
     st_history := st_history state |}.

Definition with_history (history : list ClosedPageInfo) (state : State)
    : State :=
  {| st_settings := st_settings state;
     st_autocloseTimeoutId := st_autocloseTimeoutId state;
     st_paused := st_paused state;
     st_history := history |}.

Definition with_paused (paused : bool) (state : State) : State :=
  {| st_settings := st_settings state;
     st_autocloseTimeoutId := st_autocloseTimeoutId state;
     st_paused := paused;
     st_history := st_history state |}.

Definition with_storage (items : Storage) (browser : Browser) : Browser :=
  {| open_tabs := open_tabs browser; alarm := alarm browser;
     storage := items |}.

(** One listener run to its end.  [updateBrowserAction] only draws the
    toolbar button, which [Browser] leaves out.  [StorageChanged None] is
    a change of storage that does not concern [settings]. *)
Definition listener (now : Z) (event : Event) (state : State)
    (browser : Browser) : State * Browser * Outcome :=
  match event with
  | ActionClicked =>
      autoclose now (with_paused (negb (st_paused state)) state) browser
  | TabCreated | TabAttached => autoclose now state browser
  | TabUpdated changed_pinned changed_audible =>
      match changed_pinned, changed_audible with
      | Some false, _ | _, Some false => autoclose now state browser
      | _, _ => (state, browser, Resolved)
      end
  | StorageChanged (Some newSettings) =>
      let state1 := with_settings newSettings state in
      let state2 :=
        with_history (slice0 (st_history state1)
                             (maxHistorySize (st_settings state1))) state1 in
      autoclose now state2
        (with_storage (persistHistory state2 (storage browser)) browser)
  | StorageChanged None => (state, browser, Resolved)
  | AlarmFired name =>
      if String.eqb name "autoclose" then autoclose now state browser
      else (state, browser, Resolved)
  end.

(** A run of the script: at each step the browser reports the time and its
    tabs, and one event is delivered. *)
Fixpoint run (steps : list (Z * list Tab * Event)) (state : State)
    (browser : Browser) : State * Browser :=
  match steps with
  | [] => (state, browser)
  | (now, tabs, event) :: rest =>
      let browser' :=
        {| open_tabs := tabs; alarm := alarm browser;
           storage := storage browser |} in
      let '(state', browser'', _) := listener now event state browser' in
      run rest state' browser''
  end.
End Autoclose.

(** The parts of what a listener leaves behind. *)
Definition state_after (result : State * Browser * Outcome) : State :=
  fst (fst result).

Definition browser_after (result : State * Browser * Outcome) : Browser :=
  snd (fst result).

Definition outcome_of (result : State * Browser * Outcome) : Outcome :=
  snd result.

(** The history respects the configured size, when the size is a size. *)
Definition history_within_bound (state : State) : Prop :=
  0 <= maxHistorySize (st_settings state) ->
  Z.of_nat (length (st_history state)) <= maxHistorySize (st_settings state).

(** With [clearHistoryOnExit] off, storage holds the history the script
    has in memory. *)
Definition history_in_step (state : State) (browser : Browser) : Prop :=
  clearHistoryOnExit (st_settings state) = false ->
  item_history (storage browser) = Some (st_history state).

(** A storage change that keeps [clearHistoryOnExit] on. *)
Definition keeps_clearing (step : Z * list Tab * Event) : Prop :=
  match snd step with
  | StorageChanged (Some newSettings) => clearHistoryOnExit newSettings = true
  | _ => True
  end.

(** The unpinned tabs of window [w]. *)
Definition unpinned_in (w : Z) (tabs : list Tab) : list Tab :=
  filter (fun tab => negb (pinned tab) && (windowId tab =? w)) tabs.

(** ** The settings form (options page)

    The change listeners of the count fields and of the check boxes.  A
    count field hands over what [parseInt] made of the text, [None] for
    [NaN].  The field of the inactivity threshold goes through [parseFloat]
    and a multiplication of doubles and is left out. *)

Inductive Edit : Type :=
| EditMinTabsCount (c : option Z)
| EditMaxHistorySize (c : option Z)
| EditClearHistoryOnExit (checked : bool)
| EditExcludeTabsInGroups (checked : bool).

Definition set_minTabsCount (c : Z) (settings : StoredSettings)
    : StoredSettings :=
  {| stored_minInactiveMilliseconds := stored_minInactiveMilliseconds settings;
     stored_minTabsCount := Some c;
     stored_maxHistorySize := stored_maxHistorySize settings;
     stored_clearHistoryOnExit := stored_clearHistoryOnExit settings;
     stored_excludeTabsInGroups := stored_excludeTabsInGroups settings;
     stored_saveClosedPages := stored_saveClosedPages settings |}.

Definition set_maxHistorySize (c : Z) (settings : StoredSettings)
    : StoredSettings :=
  {| stored_minInactiveMilliseconds := stored_minInactiveMilliseconds settings;
     stored_minTabsCount := stored_minTabsCount settings;
     stored_maxHistorySize := Some c;
     stored_clearHistoryOnExit := stored_clearHistoryOnExit settings;
     stored_excludeTabsInGroups := stored_excludeTabsInGroups settings;
     stored_saveClosedPages := stored_saveClosedPages settings |}.

Definition set_clearHistoryOnExit (checked : bool) (settings : StoredSettings)
    : StoredSettings :=
  {| stored_minInactiveMilliseconds := stored_minInactiveMilliseconds settings;
     stored_minTabsCount := stored_minTabsCount settings;
     stored_maxHistorySize := stored_maxHistorySize settings;
     stored_clearHistoryOnExit := Some checked;
     stored_excludeTabsInGroups := stored_excludeTabsInGroups settings;
     stored_saveClosedPages := stored_saveClosedPages settings |}.

Definition set_excludeTabsInGroups (checked : bool) (settings : StoredSettings)
    : StoredSettings :=
  {| stored_minInactiveMilliseconds := stored_minInactiveMilliseconds settings;
     stored_minTabsCount := stored_minTabsCount settings;
     stored_maxHistorySize := stored_maxHistorySize settings;
     stored_clearHistoryOnExit := stored_clearHistoryOnExit settings;
     stored_excludeTabsInGroups := Some checked;
     stored_saveClosedPages := stored_saveClosedPages settings |}.

(** The form: the settings object it edits, the storage, and the
    [aria-invalid] marks of the two count fields ([None]: never set). *)
Record Form : Type := {
  form_settings : StoredSettings;
  form_storage : Storage;
  invalid_minTabsCount : option bool;
  invalid_maxHistorySize : option bool
}.

Definition change (edit : Edit) (form : Form) : Form :=
  match edit with
  | EditMinTabsCount c =>
      match c with
      | Some c' =>
          if c' <=? 0 then
            {| form_settings := form_settings form;
               form_storage := form_storage form;
               invalid_minTabsCount := Some true;
               invalid_maxHistorySize := invalid_maxHistorySize form |}
          else
            {| form_settings := set_minTabsCount c' (form_settings form);
               form_storage :=
                 persistSettings (set_minTabsCount c' (form_settings form))
                                 (form_storage form);
               invalid_minTabsCount := Some false;
               invalid_maxHistorySize := invalid_maxHistorySize form |}
      | None =>
          {| form_settings := form_settings form;
             form_storage := form_storage form;
             invalid_minTabsCount := Some true;
             invalid_maxHistorySize := invalid_maxHistorySize form |}
      end
  | EditMaxHistorySize c =>
      match c with
      | Some c' =>
          if c' <? 0 then
            {| form_settings := form_settings form;
               form_storage := form_storage form;
               invalid_minTabsCount := invalid_minTabsCount form;
               invalid_maxHistorySize := Some true |}
          else
            {| form_settings := set_maxHistorySize c' (form_settings form);
               form_storage :=
                 persistSettings (set_maxHistorySize c' (form_settings form))
                                 (form_storage form);
               invalid_minTabsCount := invalid_minTabsCount form;
               invalid_maxHistorySize := Some false |}
      | None =>
          {| form_settings := form_settings form;
             form_storage := form_storage form;
             invalid_minTabsCount := invalid_minTabsCount form;
             invalid_maxHistorySize := Some true |}
      end
  | EditClearHistoryOnExit checked =>
      {| form_settings := set_clearHistoryOnExit checked (form_settings form);
         form_storage :=
           persistSettings
             (set_clearHistoryOnExit checked (form_settings form))
             (form_storage form);
         invalid_minTabsCount := invalid_minTabsCount form;
         invalid_maxHistorySize := invalid_maxHistorySize form |}
  | EditExcludeTabsInGroups checked =>
      {| form_settings := set_excludeTabsInGroups checked (form_settings form);
         form_storage :=
           persistSettings
             (set_excludeTabsInGroups checked (form_settings form))
             (form_storage form);
         invalid_minTabsCount := invalid_minTabsCount form;
         invalid_maxHistorySize := invalid_maxHistorySize form |}
  end.

Definition changes (edits : list Edit) (form : Form) : Form :=
  fold_left (fun form edit => change edit form) edits form.

(** The counts a settings object holds are in range: at least one tab, a
    history size that is not negative. *)
Definition counts_in_range (settings : StoredSettings) : Prop :=
  (forall c, stored_minTabsCount settings = Some c -> 1 <= c)
  /\ (forall c, stored_maxHistorySize settings = Some c -> 0 <= c).

(** The tabs of [nowCloseableTabs] and of [onlyLaterCloseableTabs], told
    from the input: unpinned, let through by the filter, and on one side or
    the other of the threshold. *)
Definition now_closeable (now : Z) (settings : Settings) (tab : Tab) : bool :=
  negb (pinned tab) && closeable settings tab
  && js_lt (threshold settings tab) (Fin now).

Definition later_closeable (now : Z) (settings : Settings) (tab : Tab)
    : bool :=
  negb (pinned tab) && closeable settings tab
  && js_ge (threshold settings tab) (Fin now).

(** A window is waiting when this run leaves part of its budget unused and
    a tab of it that passed the filter has its threshold still to come. *)
Definition window_waiting (now : Z) (settings : Settings) (tabs : list Tab)
    (w : Z) : Prop :=
  Z.of_nat (length (filter (fun tab => now_closeable now settings tab
                                       && (windowId tab =? w)) tabs))
  < Z.of_nat (length (filter (fun tab => negb (pinned tab)
                                         && (windowId tab =? w)) tabs))
    - minTabsCount settings
  /\ 0 < Z.of_nat
           (length (filter (fun tab => later_closeable now settings tab
                                       && (windowId tab =? w)) tabs)).

(** Ascending order of [lastAccessed], the order line 146 announces. *)
Definition lastAccessed_le (t1 t2 : Tab) : Prop :=
  js_le (to_number (lastAccessed t1)) (to_number (lastAccessed t2)) = true.

Definition known_instant (tab : Tab) : Prop :=
  exists z, lastAccessed tab = Some (Fin z).

(** The timestamp of a tab that has one. *)
Definition instant_of (tab : Tab) : Z :=
  match lastAccessed tab with
  | Some (Fin z) => z
  | _ => 0
  end.

(** An engine on which the comparator of line 159 does order tabs with
    known timestamps. *)
Definition sorts_by_lastAccessed (engine : SortEngine) : Prop :=
  forall tabs,
    Forall known_instant tabs ->
    StronglySorted lastAccessed_le (array_sort lastAccessed_gt tabs).

(** A tab that reaches the sort, being unpinned and let through by the
    filter, has a known timestamp. *)
Definition candidate_known (settings : Settings) (tab : Tab) : Prop :=
  pinned tab = false -> closeable settings tab = true -> known_instant tab.

(** At [now = 100] with a threshold of 10 ms and [minTabsCount = 1]:
    window 1 waits for its tabs, due at 108 and 105; window 2 closes tab 3
    and has no budget left for tab 4, due at 103. *)
Definition waiting_and_spent : list Tab :=
  [mkTab 1 1 (Some (Fin 98)); mkTab 2 1 (Some (Fin 95));
   mkTab 3 2 (Some (Fin 0)); mkTab 4 2 (Some (Fin 93))].

(** * Proofs *)

(** ** The sort engines rearrange *)

Section SortPermutations.
Context {A : Type} (comparefn : A -> A -> Z).

Lemma insert_back_perm (item : A) (rev_sorted : list A) :
  Permutation (item :: rev_sorted) (insert_back comparefn item rev_sorted).
Proof.
  induction rev_sorted as [|swap rest IH]; simpl.
  - apply Permutation_refl.
  - destruct (comparefn swap item <=? 0).
    + apply Permutation_refl.
    + eapply perm_trans; [apply perm_swap|].
      apply perm_skip, IH.
Qed.

Lemma insertion_fold_perm (l acc : list A) :
  Permutation (acc ++ l)
    (fold_left (fun rev_sorted item => insert_back comparefn item rev_sorted)
               l acc).
Proof.
  revert acc; induction l as [|x l IH]; intros acc; simpl.
  - rewrite app_nil_r. apply Permutation_refl.
  - eapply perm_trans; [|apply IH].
    eapply perm_trans; [apply Permutation_sym, Permutation_middle|].
    apply (Permutation_app_tail l (insert_back_perm x acc)).
Qed.

Lemma insertion_sort_perm (l : list A) :
  Permutation l (insertion_sort comparefn l).
Proof.
  unfold insertion_sort.
  eapply perm_trans; [|apply Permutation_rev].
  apply (insertion_fold_perm l []).
Qed.

Lemma binary_insert_perm (sorted : list A) (pivot : A) :
  Permutation (pivot :: sorted) (binary_insert comparefn sorted pivot).
Proof.
  unfold binary_insert.
  set (position := binary_search comparefn _ _ _ _ _).
  rewrite <- (firstn_skipn position sorted) at 1.
  apply Permutation_middle.
Qed.

Lemma binary_fold_perm (rest run : list A) :
  Permutation (run ++ rest) (fold_left (binary_insert comparefn) rest run).
Proof.
  revert run; induction rest as [|x rest IH]; intros run; simpl.
  - rewrite app_nil_r. apply Permutation_refl.
  - eapply perm_trans; [|apply IH].
    eapply perm_trans; [apply Permutation_sym, Permutation_middle|].
    apply (Permutation_app_tail rest (binary_insert_perm run x)).
Qed.

Lemma count_run_perm (l : list A) :
  Permutation l (fst (count_run_and_make_ascending comparefn l)
                 ++ snd (count_run_and_make_ascending comparefn l)).
Proof.
  unfold count_run_and_make_ascending.
  destruct l as [|low [|second rest]];
    try (simpl; rewrite ?app_nil_r; apply Permutation_refl).
  cbv zeta.
  set (n := S (S _)).
  destruct (comparefn second low <? 0); cbn [fst snd].
  - rewrite <- (firstn_skipn n (low :: second :: rest)) at 1.
    apply Permutation_app_tail, Permutation_rev.
  - rewrite firstn_skipn. apply Permutation_refl.
Qed.

Lemma timsort_short_perm (l : list A) :
  Permutation l (timsort_short comparefn l).
Proof.
  unfold timsort_short.
  pose proof (count_run_perm l) as Hrun.
  destruct (count_run_and_make_ascending comparefn l) as [run rest];
    cbn [fst snd] in Hrun.
  eapply perm_trans; [exact Hrun|apply binary_fold_perm].
Qed.
End SortPermutations.

Definition insertion_engine : SortEngine :=
  {| array_sort := @insertion_sort; array_sort_perm := @insertion_sort_perm |}.

Definition timsort_engine : SortEngine :=
  {| array_sort := @timsort_short; array_sort_perm := @timsort_short_perm |}.

(** ** Facts about numbers *)

Lemma js_lt_not_ge (a b : jsnum) : js_lt a b = true -> js_ge a b = false.
Proof.
  destruct a, b; simpl; try congruence.
  intros H. apply Z.ltb_lt in H. apply Z.leb_gt. exact H.
Qed.

Lemma closeable_later (now : Z) (settings : Settings) (tab : Tab) :
  closeable settings tab = true ->
  js_ge (threshold settings tab) (Fin now) = true ->
  exists z, lastAccessed tab = Some (Fin z)
            /\ threshold settings tab = Fin (z + minInactiveMilliseconds settings)
            /\ now <= z + minInactiveMilliseconds settings.
Proof.
  unfold closeable, threshold.
  destruct (lastAccessed tab) as [[z| | |]|]; simpl; intros Hc Hge;
    try discriminate.
  - exists z. repeat split. apply Z.leb_le. exact Hge.
  - rewrite orb_true_r in Hc. discriminate.
Qed.

Lemma now_closeable_known (now : Z) (settings : Settings) (tab : Tab) :
  js_lt (threshold settings tab) (Fin now) = true ->
  exists n, lastAccessed tab = Some n.
Proof.
  unfold threshold.
  destruct (lastAccessed tab) as [n|]; simpl; intros H.
  - exists n. reflexivity.
  - discriminate.
Qed.

Lemma Math_min_cases (l : list jsnum) :
  Forall is_wake l ->
  (Math_min l = PInf /\ Forall (fun v => v = PInf) l)
  \/ (exists T, Math_min l = Fin T /\ In (Fin T) l
                /\ Forall (fun v => js_le (Fin T) v = true) l).
Proof.
  induction 1 as [|v l Hv Hl IH]; simpl.
  - left. split; [reflexivity|constructor].
  - destruct Hv as [->|[z ->]].
    + destruct IH as [[Hm Hall]|(T & Hm & Hin & Hall)].
      * left. rewrite Hm. split; [reflexivity|constructor; auto].
      * right. exists T. rewrite Hm. simpl. repeat split; auto.
    + destruct IH as [[Hm Hall]|(T & Hm & Hin & Hall)].
      * right. exists z. rewrite Hm. simpl. repeat split; auto.
        constructor.
        -- simpl. apply Z.leb_refl.
        -- eapply Forall_impl; [|exact Hall]. intros a ->. reflexivity.
      * right. rewrite Hm. simpl.
        destruct (Z.min_spec z T) as [[Hlt ->]|[Hle ->]].
        -- exists z. repeat split; auto.
           constructor; [simpl; apply Z.leb_refl|].
           eapply Forall_impl; [|exact Hall].
           intros [y| | |]; simpl; try congruence.
           intros Hy. apply Z.leb_le in Hy. apply Z.leb_le. lia.
        -- exists T. repeat split; auto.
           constructor; [simpl; apply Z.leb_le; lia|exact Hall].
Qed.

(** ** Facts about lists *)

Lemma filter_none {A : Type} (f : A -> bool) (l : list A) :
  Forall (fun x => f x = false) l -> filter f l = [].
Proof.
  induction 1 as [|x l Hx _ IH]; simpl.
  - reflexivity.
  - rewrite Hx. exact IH.
Qed.

Lemma filter_filter_andb {A : Type} (f g : A -> bool) (l : list A) :
  filter f (filter g l) = filter (fun x => f x && g x) l.
Proof.
  induction l as [|x l IH]; simpl.
  - reflexivity.
  - destruct (g x); simpl.
    + rewrite andb_true_r. destruct (f x); rewrite IH; reflexivity.
    + rewrite andb_false_r. exact IH.
Qed.

Lemma filter_length_le {A : Type} (f : A -> bool) (l : list A) :
  (length (filter f l) <= length l)%nat.
Proof.
  induction l as [|x l IH]; simpl.
  - constructor.
  - destruct (f x); simpl; lia.
Qed.

Lemma firstn_In {A : Type} (n : nat) (l : list A) (x : A) :
  In x (firstn n l) -> In x l.
Proof.
  revert l; induction n as [|n IH]; intros [|y l]; simpl; try tauto.
  intros [H|H]; [left; exact H|right; apply IH; exact H].
Qed.

Lemma set_add_fold_spec (xs seen : list Z) :
  NoDup seen ->
  NoDup (fold_left set_add xs seen)
  /\ forall x, In x (fold_left set_add xs seen) <-> In x seen \/ In x xs.
Proof.
  revert seen; induction xs as [|y xs IH]; intros seen Hnd; simpl.
  - split; [exact Hnd|]. intros x. tauto.
  - assert (Hstep : NoDup (set_add seen y)
                    /\ forall x, In x (set_add seen y) <-> In x seen \/ y = x).
    { unfold set_add. destruct (existsb (Z.eqb y) seen) eqn:E.
      - split; [exact Hnd|]. intros x. split; [tauto|].
        intros [H| <-]; [exact H|].
        apply existsb_exists in E. destruct E as (z & Hz & Heq).
        apply Z.eqb_eq in Heq. subst z. exact Hz.
      - split.
        + apply NoDup_app; [exact Hnd|repeat constructor; simpl; tauto|].
          intros x Hx [<-|[]].
          assert (existsb (Z.eqb y) seen = true) as E'.
          { apply existsb_exists. exists y. split; [exact Hx|apply Z.eqb_refl]. }
          congruence.
        + intros x. rewrite in_app_iff. simpl. tauto. }
    destruct Hstep as [Hnd' Hin'].
    destruct (IH _ Hnd') as [IHnd IHin].
    split; [exact IHnd|].
    intros x. rewrite IHin, Hin'. tauto.
Qed.

Lemma array_from_set_NoDup (xs : list Z) : NoDup (array_from_set xs).
Proof. apply (set_add_fold_spec xs []). constructor. Qed.

Lemma array_from_set_In (xs : list Z) (x : Z) :
  In x (array_from_set xs) <-> In x xs.
Proof.
  destruct (set_add_fold_spec xs [] (NoDup_nil Z)) as [_ H].
  unfold array_from_set. rewrite H. simpl. tauto.
Qed.

(** ** The per-window result *)

Section DecisionFacts.
Context {engine : SortEngine}.

Lemma closeableTabs_In (settings : Settings) (tabs : list Tab) (tab : Tab) :
  In tab (array_sort lastAccessed_gt
            (filter (closeable settings)
                    (filter (fun tab => negb (pinned tab)) tabs))) ->
  In tab tabs /\ pinned tab = false /\ closeable settings tab = true.
Proof.
  intros H.
  apply (Permutation_in _ (Permutation_sym (array_sort_perm _ _ _))) in H.
  apply filter_In in H. destruct H as [H Hc].
  apply filter_In in H. destruct H as [H Hp].
  repeat split; auto. apply negb_true_iff. exact Hp.
Qed.

Lemma perWindowResult_inv (now : Z) (settings : Settings) (tabs : list Tab) :
  exists r, perWindowResult now settings tabs = Some r
            /\ window_ok now settings tabs r.
Proof.
  unfold perWindowResult.
  set (unpinnedTabs := filter (fun tab => negb (pinned tab)) tabs).
  set (numTabsToClose :=
         Z.of_nat (length unpinnedTabs) - minTabsCount settings).
  destruct (numTabsToClose <=? 0) eqn:Hbudget.
  - eexists. split; [reflexivity|].
    split; simpl; [constructor|lia|left; reflexivity].
  - apply Z.leb_gt in Hbudget.
    set (closeableTabs :=
           array_sort lastAccessed_gt
                      (filter (closeable settings) unpinnedTabs)).
    set (nowCloseableTabs :=
           filter (fun tab => js_lt (threshold settings tab) (Fin now))
                  closeableTabs).
    set (onlyLaterCloseableTabs :=
           filter (fun tab => js_ge (threshold settings tab) (Fin now))
                  closeableTabs).
    set (closing := firstn (Z.to_nat numTabsToClose) nowCloseableTabs).
    assert (Hclosed :
              Forall (fun tab => In tab tabs /\ pinned tab = false
                                 /\ closeable settings tab = true
                                 /\ js_lt (threshold settings tab) (Fin now)
                                    = true) closing).
    { apply Forall_forall. intros tab Hin.
      apply firstn_In in Hin. apply filter_In in Hin.
      destruct Hin as [Hin Hlt].
      apply closeableTabs_In in Hin. tauto. }
    assert (Hlen : Z.of_nat (length closing)
                   <= Z.max 0 (Z.of_nat (length unpinnedTabs)
                               - minTabsCount settings)).
    { pose proof (firstn_le_length (Z.to_nat numTabsToClose)
                                   nowCloseableTabs) as Hle.
      fold closing in Hle. fold numTabsToClose. lia. }
    destruct ((Z.of_nat (length closing) =? numTabsToClose)
              || (length onlyLaterCloseableTabs =? 0)%nat) eqn:Hdone.
    + eexists. split; [reflexivity|].
      split; simpl; [exact Hclosed|exact Hlen|left; reflexivity].
    + apply orb_false_iff in Hdone. destruct Hdone as [_ Hlater].
      destruct onlyLaterCloseableTabs as [|first rest] eqn:Elater;
        [discriminate|].
      eexists. split; [reflexivity|].
      split; simpl; [exact Hclosed|exact Hlen|].
      right. exists first.
      assert (Hin : In first onlyLaterCloseableTabs)
        by (rewrite Elater; left; reflexivity).
      apply filter_In in Hin. destruct Hin as [Hin Hge].
      apply closeableTabs_In in Hin. tauto.
Qed.

Lemma map_exn_map_inv {X Y W : Type} (f : Y -> option W) (g : X -> Y)
    (P : X -> W -> Prop) (xs : list X) :
  (forall x, exists w, f (g x) = Some w /\ P x w) ->
  exists ws, map_exn f (map g xs) = Some ws /\ Forall2 P xs ws.
Proof.
  intros Hf. induction xs as [|x xs (ws & Hws & Hall)]; simpl.
  - exists []. split; [reflexivity|constructor].
  - destruct (Hf x) as (w & Hw & HP).
    rewrite Hw, Hws. exists (w :: ws). split; [reflexivity|].
    constructor; assumption.
Qed.

(** Every window yields a result: no call of the callback throws. *)
Lemma perWindowResults_inv (now : Z) (settings : Settings) (tabs : list Tab) :
  exists results,
    perWindowResults now settings tabs = Some results
    /\ Forall2 (fun w r =>
                  window_ok now settings
                    (filter (fun tab => windowId tab =? w) tabs) r)
               (array_from_set (map windowId tabs)) results.
Proof.
  unfold perWindowResults, tabsByWindow.
  apply map_exn_map_inv. intros w. apply perWindowResult_inv.
Qed.

Lemma tabsToClose_inv (now : Z) (settings : Settings) (tabs : list Tab) :
  exists results,
    perWindowResults now settings tabs = Some results
    /\ tabsToClose now settings tabs
       = Some {| res_tabsToClose := concat (map res_tabsToClose results);
                 res_nextCheck := Math_min (map res_nextCheck results) |}
    /\ Forall2 (fun w r =>
                  window_ok now settings
                    (filter (fun tab => windowId tab =? w) tabs) r)
               (array_from_set (map windowId tabs)) results.
Proof.
  destruct (perWindowResults_inv now settings tabs) as (results & Hr & Hall).
  exists results. unfold tabsToClose. rewrite Hr. auto.
Qed.

(** The tabs of the close-set, whatever their window. *)
Lemma close_set_members (now : Z) (settings : Settings) (tabs : list Tab)
    (ws : list Z) (results : list CloseInfo) :
  Forall2 (fun w r =>
             window_ok now settings
               (filter (fun tab => windowId tab =? w) tabs) r) ws results ->
  Forall (fun tab => In tab tabs /\ pinned tab = false
                     /\ closeable settings tab = true
                     /\ js_lt (threshold settings tab) (Fin now) = true)
         (concat (map res_tabsToClose results)).
Proof.
  induction 1 as [|w r ws results Hok _ IH]; simpl.
  - constructor.
  - apply Forall_app. split; [|exact IH].
    eapply Forall_impl; [|exact (closed_ok _ _ _ _ Hok)].
    intros tab (Hin & Hrest). split; [|exact Hrest].
    apply filter_In in Hin. tauto.
Qed.

(** The next checks of the windows. *)
Lemma window_next_checks (now : Z) (settings : Settings) (tabs : list Tab)
    (ws : list Z) (results : list CloseInfo) :
  Forall2 (fun w r =>
             window_ok now settings
               (filter (fun tab => windowId tab =? w) tabs) r) ws results ->
  Forall (fun v =>
            v = PInf
            \/ exists tab z,
                 In tab tabs /\ pinned tab = false
                 /\ closeable settings tab = true
                 /\ lastAccessed tab = Some (Fin z)
                 /\ v = Fin (z + minInactiveMilliseconds settings)
                 /\ now <= z + minInactiveMilliseconds settings)
         (map res_nextCheck results).
Proof.
  induction 1 as [|w r ws results Hok _ IH]; simpl; constructor; auto.
  destruct (next_ok _ _ _ _ Hok) as [Hinf|(tab & Hin & Hp & Hc & Hge & Hn)].
  - left. exact Hinf.
  - right. destruct (closeable_later now settings tab Hc Hge)
      as (z & Hla & Hth & Hz).
    exists tab, z. apply filter_In in Hin.
    repeat split; try tauto. congruence.
Qed.
End DecisionFacts.

(** ** The decision engine *)

Section DecisionTheorems.
Context {engine : SortEngine}.

Local Abbreviation in_window w := (fun tab : Tab => windowId tab =? w).

Lemma other_window_closes_nothing (now : Z) (settings : Settings)
    (tabs : list Tab) (w w' : Z) (r : CloseInfo) :
  window_ok now settings (filter (in_window w') tabs) r ->
  w' <> w ->
  filter (in_window w) (res_tabsToClose r) = [].
Proof.
  intros Hok Hne. apply filter_none.
  eapply Forall_impl; [|exact (closed_ok _ _ _ _ Hok)].
  intros tab (Hin & _). apply filter_In in Hin. destruct Hin as [_ Hw].
  apply Z.eqb_eq in Hw. apply Z.eqb_neq. congruence.
Qed.

Lemma absent_window_closes_nothing (now : Z) (settings : Settings)
    (tabs : list Tab) (w : Z) (ws : list Z) (results : list CloseInfo) :
  Forall2 (fun w' r => window_ok now settings (filter (in_window w') tabs) r)
          ws results ->
  ~ In w ws ->
  filter (in_window w) (concat (map res_tabsToClose results)) = [].
Proof.
  induction 1 as [|w' r ws results Hok _ IH]; simpl; intros Hnot.
  - reflexivity.
  - rewrite filter_app, IH by tauto.
    rewrite (other_window_closes_nothing _ _ _ w w' r Hok) by tauto.
    reflexivity.
Qed.

Lemma window_closes_within_budget (now : Z) (settings : Settings)
    (tabs : list Tab) (w : Z) (ws : list Z) (results : list CloseInfo) :
  Forall2 (fun w' r => window_ok now settings (filter (in_window w') tabs) r)
          ws results ->
  NoDup ws ->
  Z.of_nat (length (filter (in_window w)
                           (concat (map res_tabsToClose results))))
  <= Z.max 0 (Z.of_nat (length (filter (fun tab => negb (pinned tab))
                                       (filter (in_window w) tabs)))
              - minTabsCount settings).
Proof.
  induction 1 as [|w' r ws results Hok Hrest IH]; simpl; intros Hnd.
  - lia.
  - inversion Hnd as [|? ? Hnotin Hnd']; subst.
    rewrite filter_app, length_app.
    destruct (Z.eq_dec w' w) as [->|Hne].
    + rewrite (absent_window_closes_nothing _ _ _ w ws results Hrest Hnotin).
      pose proof (budget_ok _ _ _ _ Hok) as Hb.
      pose proof (filter_length_le (in_window w) (res_tabsToClose r)).
      simpl. lia.
    + rewrite (other_window_closes_nothing _ _ _ w w' r Hok Hne).
      simpl. apply IH. exact Hnd'.
Qed.

(** C1 (floor invariant).  [tabsToClose] returns, and for every window
    the unpinned tabs of the window minus the window's tabs in the
    close-set are at least [min(minTabsCount, unpinned count)]; put
    otherwise, a window contributes at most
    [max(0, unpinned count - minTabsCount)] tabs. *)
Theorem floor_invariant (now : Z) (settings : Settings) (tabs : list Tab) :
  exists r,
    tabsToClose now settings tabs = Some r
    /\ forall w : Z,
         let unpinnedCount :=
           Z.of_nat (length (filter (fun tab => negb (pinned tab)
                                                && (windowId tab =? w))
                                    tabs)) in
         let closed :=
           Z.of_nat (length (filter (in_window w) (res_tabsToClose r))) in
         unpinnedCount - closed >= Z.min (minTabsCount settings) unpinnedCount
         /\ closed <= Z.max 0 (unpinnedCount - minTabsCount settings).
Proof.
  destruct (tabsToClose_inv now settings tabs) as (results & _ & Hr & Hall).
  eexists. split; [exact Hr|].
  intros w. cbv zeta. cbn [res_tabsToClose].
  pose proof (window_closes_within_budget now settings tabs w _ _ Hall
                (array_from_set_NoDup _)) as Hb.
  rewrite filter_filter_andb in Hb.
  lia.
Qed.

(** C5 (monotonic threshold).  [tabsToClose] returns, and no tab of the
    close-set has [lastAccessed + minInactiveMilliseconds >= now]: each
    one is a tab of the input whose threshold is strictly before
    [now]. *)
Theorem monotonic_threshold (now : Z) (settings : Settings)
    (tabs : list Tab) :
  exists r,
    tabsToClose now settings tabs = Some r
    /\ Forall (fun tab =>
                 In tab tabs
                 /\ js_ge (threshold settings tab) (Fin now) = false
                 /\ js_lt (threshold settings tab) (Fin now) = true)
              (res_tabsToClose r).
Proof.
  destruct (tabsToClose_inv now settings tabs) as (results & _ & Hr & Hall).
  eexists. split; [exact Hr|]. cbn [res_tabsToClose].
  eapply Forall_impl; [|exact (close_set_members _ _ _ _ _ Hall)].
  intros tab (Hin & _ & _ & Hlt).
  repeat split; auto. apply js_lt_not_ge. exact Hlt.
Qed.

Lemma nextCheck_cases (now : Z) (settings : Settings) (tabs : list Tab)
    (results : list CloseInfo) :
  Forall2 (fun w r => window_ok now settings (filter (in_window w) tabs) r)
          (array_from_set (map windowId tabs)) results ->
  (Math_min (map res_nextCheck results) = PInf
   /\ Forall (fun r => res_nextCheck r = PInf) results)
  \/ exists T tab z,
       Math_min (map res_nextCheck results) = Fin T
       /\ In (Fin T) (map res_nextCheck results)
       /\ Forall (fun r => js_le (Fin T) (res_nextCheck r) = true) results
       /\ In tab tabs /\ pinned tab = false
       /\ closeable settings tab = true
       /\ lastAccessed tab = Some (Fin z)
       /\ T = z + minInactiveMilliseconds settings
       /\ now <= T.
Proof.
  intros Hall.
  pose proof (window_next_checks _ _ _ _ _ Hall) as Hnext.
  assert (Hwake : Forall is_wake (map res_nextCheck results)).
  { eapply Forall_impl; [|exact Hnext].
    intros v [->|(tab & z & _ & _ & _ & _ & -> & _)];
      [left; reflexivity|right; eexists; reflexivity]. }
  destruct (Math_min_cases _ Hwake) as [[Hm Hinf]|(T & Hm & Hin & Hle)].
  - left. split; [exact Hm|]. apply Forall_map in Hinf. exact Hinf.
  - right.
    rewrite Forall_forall in Hnext.
    destruct (Hnext _ Hin) as [Habs|(tab & z & H1 & H2 & H3 & H4 & H5 & H6)];
      [discriminate|].
    exists T, tab, z. injection H5 as ->.
    apply Forall_map in Hle.
    repeat split; auto.
Qed.

(** C8 (unknown [lastAccessed]).  [tabsToClose] returns on every input,
    whatever tabs lack [lastAccessed]; every tab of the close-set has a
    [lastAccessed]; and the next check is [Infinity] or the threshold of
    a tab of the input whose [lastAccessed] is a known instant. *)
Theorem unknown_lastAccessed_untouched (now : Z) (settings : Settings)
    (tabs : list Tab) :
  exists r,
    tabsToClose now settings tabs = Some r
    /\ Forall (fun tab => exists n, lastAccessed tab = Some n)
              (res_tabsToClose r)
    /\ (res_nextCheck r = PInf
        \/ exists tab z,
             In tab tabs
             /\ lastAccessed tab = Some (Fin z)
             /\ res_nextCheck r
                = Fin (z + minInactiveMilliseconds settings)).
Proof.
  destruct (tabsToClose_inv now settings tabs) as (results & _ & Hr & Hall).
  eexists. split; [exact Hr|]. cbn [res_tabsToClose res_nextCheck]. split.
  - eapply Forall_impl; [|exact (close_set_members _ _ _ _ _ Hall)].
    intros tab (_ & _ & _ & Hlt).
    exact (now_closeable_known now settings tab Hlt).
  - destruct (nextCheck_cases _ _ _ _ Hall)
      as [[Hm _]|(T & tab & z & Hm & _ & _ & Hin & _ & _ & Hla & -> & _)].
    + left. exact Hm.
    + right. exists tab, z. auto.
Qed.

(** C9 (empty input).  With no tab at all the close-set is empty and the
    next check is [Infinity], the minimum over no window. *)
Theorem tabsToClose_empty (now : Z) (settings : Settings) :
  tabsToClose now settings []
  = Some {| res_tabsToClose := []; res_nextCheck := PInf |}.
Proof. reflexivity. Qed.

(** C10 (no wake-up in the past).  [tabsToClose] returns, and its next
    check is [Infinity] or an instant [T >= now], the threshold of an
    unpinned tab that passed the filter and has
    [lastAccessed + minInactiveMilliseconds >= now]. *)
Theorem nextCheck_not_in_past (now : Z) (settings : Settings)
    (tabs : list Tab) :
  exists r,
    tabsToClose now settings tabs = Some r
    /\ (res_nextCheck r = PInf
        \/ exists T tab,
             res_nextCheck r = Fin T /\ now <= T
             /\ In tab tabs /\ pinned tab = false
             /\ closeable settings tab = true
             /\ threshold settings tab = Fin T
             /\ js_ge (threshold settings tab) (Fin now) = true).
Proof.
  destruct (tabsToClose_inv now settings tabs) as (results & _ & Hr & Hall).
  eexists. split; [exact Hr|]. cbn [res_nextCheck].
  destruct (nextCheck_cases _ _ _ _ Hall)
    as [[Hm _]|(T & tab & z & Hm & _ & _ & Hin & Hp & Hc & Hla & HT & Hnow)].
  - left. exact Hm.
  - right. exists T, tab.
    assert (Hth : threshold settings tab = Fin T).
    { unfold threshold. rewrite Hla. simpl. congruence. }
    repeat split; auto.
    rewrite Hth. simpl. apply Z.leb_le. exact Hnow.
Qed.
End DecisionTheorems.

(** ** The next check: an instant, not a delay *)

(** C2, as stated, fails.  At [now = 1000] with thresholds 700, 1050, 1100
    and 1200 the next check is 1100.  Read as a delay it points at 2100,
    where no tab crosses; read as an instant, tab 2 of the window whose
    budget is used up crosses earlier, at 1050. *)
Lemma next_wake_tightness_counterexample :
  option_map res_nextCheck
    (@tabsToClose insertion_engine 1000 (mkSettings 600 1 0) two_windows)
  = Some (Fin 1100)
  /\ ~ next_wake_tightness insertion_engine 1000 (mkSettings 600 1 0)
         two_windows
  /\ ~ next_wake_tight 1000 (mkSettings 600 1 0) two_windows (1100 - 1000).
Proof.
  split; [reflexivity|]. split.
  - intros H.
    destruct (H _ 1100 eq_refl eq_refl) as [_ (tab & Hin & Hth)].
    simpl in Hin.
    destruct Hin as [<-|[<-|[<-|[<-|[]]]]]; vm_compute in Hth; discriminate.
  - intros [H _].
    specialize (H (mkTab 2 1 (Some (Fin 450))) 1050).
    simpl in H.
    assert (1000 + (1100 - 1000) <= 1050) by (apply H; auto; lia).
    lia.
Qed.

(** C3, as stated, fails: on two tabs last accessed at 500, with
    [now = 1000] and a threshold of 600 ms, the code answers the instant
    1100 where the specification's duration is 100. *)
Lemma nextCheck_duration_counterexample :
  let tabs := [mkTab 1 1 (Some (Fin 500)); mkTab 2 1 (Some (Fin 500))] in
  option_map res_nextCheck
    (@tabsToClose insertion_engine 1000 (mkSettings 600 1 0) tabs)
  = Some (Fin 1100)
  /\ @nextWakeAfter_spec insertion_engine 1000 (mkSettings 600 1 0) tabs
     = Some (Fin 100)
  /\ option_map res_nextCheck
       (@tabsToClose insertion_engine 1000 (mkSettings 600 1 0) tabs)
     <> @nextWakeAfter_spec insertion_engine 1000 (mkSettings 600 1 0) tabs.
Proof.
  cbv zeta. split; [reflexivity|]. split; [reflexivity|].
  vm_compute. discriminate.
Qed.

Section NextCheckTheorems.
Context {engine : SortEngine}.

(** C3, amended.  [tabsToClose] returns the minimum of the windows' next
    checks: [Infinity] when every window answers [Infinity] (also when
    there is no window), otherwise the least of the windows' values.  The
    value is an instant, the threshold
    [lastAccessed + minInactiveMilliseconds] of a tab, not a duration from
    [now]. *)
Theorem nextCheck_minimum_instant (now : Z) (settings : Settings)
    (tabs : list Tab) :
  exists results r,
    perWindowResults now settings tabs = Some results
    /\ tabsToClose now settings tabs = Some r
    /\ ((res_nextCheck r = PInf
         /\ Forall (fun w => res_nextCheck w = PInf) results)
        \/ exists T tab,
             res_nextCheck r = Fin T
             /\ In (Fin T) (map res_nextCheck results)
             /\ Forall (fun w => js_le (Fin T) (res_nextCheck w) = true)
                       results
             /\ In tab tabs
             /\ threshold settings tab = Fin T).
Proof.
  destruct (tabsToClose_inv now settings tabs) as (results & Hw & Hr & Hall).
  exists results. eexists. split; [exact Hw|]. split; [exact Hr|].
  cbn [res_nextCheck].
  destruct (nextCheck_cases _ _ _ _ Hall)
    as [Hinf|(T & tab & z & Hm & HinT & Hle & Hin & _ & _ & Hla & HT & _)].
  - left. exact Hinf.
  - right. exists T, tab. repeat split; auto.
    unfold threshold. rewrite Hla. simpl. congruence.
Qed.
End NextCheckTheorems.

(** ** The eligibility filter *)

(** What the filter of the code tests. *)
Lemma closeable_iff (settings : Settings) (tab : Tab) :
  closeable settings tab = true
  <-> audible tab = false
      /\ js_ge (to_number (lastAccessed tab)) PInf = false
      /\ (excludeTabsInGroups settings = true -> no_group (groupId tab) = true).
Proof.
  unfold closeable, no_group.
  destruct (audible tab), (js_ge (to_number (lastAccessed tab)) PInf),
    (excludeTabsInGroups settings), (groupId tab) as [g|]; simpl;
    try destruct (g =? -1); simpl; intuition congruence.
Qed.

(** On a tab whose [lastAccessed] is a finite number or [Infinity] the code
    and the specification agree. *)
Lemma closeable_agrees_when_known (settings : Settings) (tab : Tab) :
  (exists z, lastAccessed tab = Some (Fin z)) \/ lastAccessed tab = Some PInf ->
  closeable settings tab = isCandidate_spec settings tab.
Proof.
  unfold closeable, isCandidate_spec, no_group.
  intros [[z ->]| ->]; simpl;
    destruct (audible tab), (excludeTabsInGroups settings),
      (groupId tab) as [g|]; simpl; try destruct (g =? -1); reflexivity.
Qed.

(** C4 at the failing input: a silent, ungrouped tab without [lastAccessed]
    passes the filter of the code, for [undefined >= Infinity] is false,
    while it is no candidate by the specification. *)
Theorem closeable_accepts_unknown_lastAccessed (settings : Settings) :
  closeable settings (mkTab 1 1 None) = true
  /\ isCandidate_spec settings (mkTab 1 1 None) = false.
Proof.
  unfold closeable, isCandidate_spec. simpl.
  rewrite andb_false_r. split; reflexivity.
Qed.

(** ** Order of closing *)

(** C7 at the failing inputs.  The comparator answers 1 or 0, never a
    negative number.  The TimSort engine then takes the array for one
    ascending run and leaves it as it is: of two closeable tabs with a
    budget of one it closes the tab accessed at 50, not the one accessed
    at 0.  The insertion engine sorts known timestamps, yet a tab without
    [lastAccessed], which the filter lets through and which compares as
    equal to everything, stops the tab accessed at 0 on its way left. *)
Theorem priority_lost_with_boolean_comparator :
  @tabsToClose timsort_engine 100 (mkSettings 10 1 0)
     [mkTab 1 1 (Some (Fin 50)); mkTab 2 1 (Some (Fin 0))]
  = Some {| res_tabsToClose := [mkTab 1 1 (Some (Fin 50))];
            res_nextCheck := PInf |}
  /\ @tabsToClose insertion_engine 100 (mkSettings 10 2 0)
       [mkTab 1 1 (Some (Fin 50)); mkTab 2 1 None; mkTab 3 1 (Some (Fin 0))]
     = Some {| res_tabsToClose := [mkTab 1 1 (Some (Fin 50))];
               res_nextCheck := PInf |}.
Proof. split; reflexivity. Qed.

(** ** History *)

Section HistoryTheorems.
Context {parser : UrlParser}.

Lemma filter_saveableTab (closed : list Tab) :
  forallb url_parses closed = true ->
  filter_exn saveableTab closed = Some (filter saveable_spec closed).
Proof.
  induction closed as [|tab closed IH]; simpl; intros H.
  - reflexivity.
  - apply andb_true_iff in H. destruct H as [Hu Hrest].
    rewrite (IH Hrest).
    unfold saveableTab, saveable_spec, url_parses in *.
    destruct (title tab), (url tab) as [u|]; try reflexivity.
    destruct (url_protocol u) as [protocol|]; [|discriminate].
    destruct (existsb (String.eqb protocol) unsaveable_protocols); simpl;
      [reflexivity|].
    destruct (incognito tab); reflexivity.
Qed.

(** C6, amended.  When every URL to be inspected parses, the update
    returns.  With [maxHistorySize > 0] the new history is the records of
    the saveable closed tabs put before the old history and cut to the
    first [maxHistorySize] entries, so its length is at most
    [maxHistorySize].  With [maxHistorySize <= 0] the history is left as it
    was. *)
Theorem history_accumulation (settings : Settings) (closed : list Tab)
    (oldHistory : list ClosedPageInfo) :
  forallb url_parses closed = true ->
  exists newHistory,
    autoclose_history settings closed oldHistory = Some newHistory
    /\ if 0 <? maxHistorySize settings
       then newHistory = newHistory_spec settings closed oldHistory
            /\ Z.of_nat (length newHistory) <= maxHistorySize settings
       else newHistory = oldHistory.
Proof.
  intros Hparse. unfold autoclose_history.
  destruct (0 <? maxHistorySize settings) eqn:Hmax.
  - rewrite (filter_saveableTab closed Hparse).
    eexists. split; [reflexivity|]. split; [reflexivity|].
    apply Z.ltb_lt in Hmax.
    pose proof (firstn_le_length (Z.to_nat (maxHistorySize settings))
                  (map closedPage (filter saveable_spec closed) ++ oldHistory)).
    lia.
  - exists oldHistory. split; reflexivity.
Qed.
End HistoryTheorems.

Lemma history_accumulation_witness :
  forallb (@url_parses scheme_parser) [tab_b] = true
  /\ exists newHistory,
       @autoclose_history scheme_parser (mkSettings 600 2 2) [tab_b] [page_a]
       = Some newHistory
       /\ if 0 <? maxHistorySize (mkSettings 600 2 2)
          then newHistory
               = @newHistory_spec scheme_parser (mkSettings 600 2 2)
                   [tab_b] [page_a]
               /\ Z.of_nat (length newHistory)
                  <= maxHistorySize (mkSettings 600 2 2)
          else newHistory = [page_a].
Proof.
  split; [reflexivity|].
  apply (@history_accumulation scheme_parser (mkSettings 600 2 2)
           [tab_b] [page_a]).
  reflexivity.
Defined.

(** C6, as stated, fails: with [maxHistorySize = 0] and a history of one
    entry the update keeps the entry, where the specification's accumulator
    answers the empty log and a length of at most 0. *)
Lemma history_accumulation_counterexample :
  @autoclose_history scheme_parser (mkSettings 600 2 0) [] [page_a]
  = Some [page_a]
  /\ @newHistory_spec scheme_parser (mkSettings 600 2 0) [] [page_a] = []
  /\ ~ (Z.of_nat (length [page_a]) <= maxHistorySize (mkSettings 600 2 0)).
Proof.
  split; [reflexivity|]. split; [reflexivity|].
  simpl. lia.
Qed.

(** ** Hosts whose sort does order the tabs

    The insertion engine orders tabs with known timestamps, the TimSort
    engine does not; on an engine that does, the oldest closeable tabs are
    closed first and a window's next check is its earliest one. *)

Lemma StronglySorted_app_inv {A : Type} (R : A -> A -> Prop) (l1 l2 : list A) :
  StronglySorted R l1 -> StronglySorted R l2 ->
  (forall x y, In x l1 -> In y l2 -> R x y) ->
  StronglySorted R (l1 ++ l2).
Proof.
  induction 1 as [|x l1 Hs IH Hx]; simpl; intros H2 Hcross.
  - exact H2.
  - constructor.
    + apply IH; [exact H2|]. intros a b Ha Hb. apply Hcross; auto.
    + apply Forall_app. split; [exact Hx|].
      apply Forall_forall. intros y Hy. apply Hcross; auto.
Qed.

Lemma StronglySorted_rev_flip {A : Type} (R : A -> A -> Prop) (l : list A) :
  StronglySorted (fun x y => R y x) l -> StronglySorted R (rev l).
Proof.
  induction 1 as [|x l Hs IH Hx]; simpl.
  - constructor.
  - apply StronglySorted_app_inv; [exact IH|repeat constructor|].
    intros a b Ha [<-|[]]. apply in_rev in Ha.
    rewrite Forall_forall in Hx. apply Hx. exact Ha.
Qed.

Lemma StronglySorted_filter {A : Type} (R : A -> A -> Prop) (f : A -> bool)
    (l : list A) :
  StronglySorted R l -> StronglySorted R (filter f l).
Proof.
  induction 1 as [|x l Hs IH Hx]; simpl.
  - constructor.
  - destruct (f x); [|exact IH].
    constructor; [exact IH|].
    apply Forall_forall. intros y Hy. apply filter_In in Hy.
    rewrite Forall_forall in Hx. apply Hx. tauto.
Qed.

Lemma sorted_prefix_closed {A : Type} (R : A -> A -> Prop) (n : nat)
    (l : list A) (a b : A) :
  StronglySorted R l ->
  In b (firstn n l) -> In a l -> ~ R b a -> In a (firstn n l).
Proof.
  intros Hs. revert n. induction Hs as [|x l Hs IH Hx]; intros n Hb Ha Hnot.
  - destruct Ha.
  - destruct n as [|n]; [destruct Hb|]. simpl in *.
    destruct Ha as [Ha|Ha]; [left; exact Ha|].
    destruct Hb as [Hb|Hb].
    + subst b. rewrite Forall_forall in Hx. elim Hnot. apply Hx. exact Ha.
    + right. apply IH; assumption.
Qed.

Section InsertionSorts.
Context {A : Type} (comparefn : A -> A -> Z) (key : A -> Z) (P : A -> Prop).
Hypothesis comparefn_key :
  forall a b, P a -> P b -> (comparefn a b <=? 0) = (key a <=? key b).

Let descending (x y : A) : Prop := key y <= key x.

Lemma insert_back_sorted (item : A) (rev_sorted : list A) :
  P item -> Forall P rev_sorted ->
  StronglySorted descending rev_sorted ->
  StronglySorted descending (insert_back comparefn item rev_sorted).
Proof.
  intros Hitem HP Hs.
  induction Hs as [|swap rest Hs IH Hswap]; simpl.
  - repeat constructor.
  - inversion HP as [|? ? HPswap HPrest]; subst.
    rewrite (comparefn_key swap item HPswap Hitem).
    destruct (key swap <=? key item) eqn:Hle.
    + apply Z.leb_le in Hle.
      constructor; [constructor; assumption|].
      constructor; [exact Hle|].
      eapply Forall_impl; [|exact Hswap].
      unfold descending. intros y Hy. lia.
    + apply Z.leb_gt in Hle.
      constructor; [apply IH; exact HPrest|].
      apply Forall_forall. intros y Hy.
      apply (Permutation_in _
               (Permutation_sym (insert_back_perm comparefn item rest))) in Hy.
      destruct Hy as [<-|Hy].
      * unfold descending. lia.
      * rewrite Forall_forall in Hswap. apply Hswap. exact Hy.
Qed.

Lemma insertion_fold_sorted (l acc : list A) :
  Forall P l -> Forall P acc ->
  StronglySorted descending acc ->
  StronglySorted descending
    (fold_left (fun rev_sorted item => insert_back comparefn item rev_sorted)
               l acc).
Proof.
  revert acc; induction l as [|x l IH]; intros acc Hl Hacc Hs; simpl.
  - exact Hs.
  - inversion Hl as [|? ? Hx Hl']; subst.
    apply IH; [exact Hl'| |apply insert_back_sorted; assumption].
    apply Forall_forall. intros y Hy.
    apply (Permutation_in _
             (Permutation_sym (insert_back_perm comparefn x acc))) in Hy.
    destruct Hy as [<-|Hy]; [exact Hx|].
    rewrite Forall_forall in Hacc. apply Hacc. exact Hy.
Qed.

Lemma insertion_sort_sorted (l : list A) :
  Forall P l ->
  StronglySorted (fun x y => key x <= key y) (insertion_sort comparefn l).
Proof.
  intros Hl. unfold insertion_sort.
  apply StronglySorted_rev_flip.
  apply (insertion_fold_sorted l []); [exact Hl|constructor|constructor].
Qed.
End InsertionSorts.

Lemma sorted_instants (l : list Tab) :
  StronglySorted (fun x y => instant_of x <= instant_of y) l ->
  Forall known_instant l ->
  StronglySorted lastAccessed_le l.
Proof.
  induction 1 as [|a l Hs IH Ha]; intros Hk.
  - constructor.
  - inversion Hk as [|? ? Hka Hkl]; subst.
    constructor; [apply IH; exact Hkl|].
    apply Forall_forall. intros y Hy.
    rewrite Forall_forall in Ha, Hkl.
    specialize (Ha y Hy). destruct Hka as [za Hza], (Hkl y Hy) as [zy Hzy].
    unfold lastAccessed_le, instant_of in *. rewrite Hza, Hzy in *. simpl.
    apply Z.leb_le. exact Ha.
Qed.

Lemma insertion_engine_sorts : sorts_by_lastAccessed insertion_engine.
Proof.
  intros tabs Hknown. simpl.
  apply sorted_instants.
  - apply (insertion_sort_sorted lastAccessed_gt instant_of known_instant);
      [|exact Hknown].
    intros a b [za Hza] [zb Hzb].
    unfold lastAccessed_gt, instant_of, js_gt. rewrite Hza, Hzb. simpl.
    destruct (zb <? za) eqn:E.
    + apply Z.ltb_lt in E. symmetry. apply Z.leb_gt. exact E.
    + apply Z.ltb_ge in E. symmetry. apply Z.leb_le. exact E.
  - apply Forall_forall. intros y Hy.
    apply (Permutation_in _
             (Permutation_sym (insertion_sort_perm lastAccessed_gt tabs)))
      in Hy.
    rewrite Forall_forall in Hknown. apply Hknown. exact Hy.
Qed.

Lemma timsort_engine_does_not_sort : ~ sorts_by_lastAccessed timsort_engine.
Proof.
  intros H.
  specialize (H [mkTab 1 1 (Some (Fin 50)); mkTab 2 1 (Some (Fin 0))]).
  assert (Hk : Forall known_instant
                 [mkTab 1 1 (Some (Fin 50)); mkTab 2 1 (Some (Fin 0))]).
  { repeat constructor; eexists; reflexivity. }
  specialize (H Hk). vm_compute in H.
  inversion H as [|? ? _ Hhead]; subst.
  inversion Hhead as [|? ? Hle _]; subst.
  discriminate Hle.
Qed.

Section SortingHost.
Context {engine : SortEngine}.
Hypothesis engine_sorts : sorts_by_lastAccessed engine.

Lemma closeableTabs_sorted (settings : Settings) (tabs : list Tab) :
  Forall known_instant tabs ->
  StronglySorted lastAccessed_le
    (array_sort lastAccessed_gt
       (filter (closeable settings)
               (filter (fun tab => negb (pinned tab)) tabs))).
Proof.
  intros Hknown. apply engine_sorts.
  apply Forall_forall. intros tab Hin.
  apply filter_In in Hin. destruct Hin as [Hin _].
  apply filter_In in Hin. destruct Hin as [Hin _].
  rewrite Forall_forall in Hknown. apply Hknown. exact Hin.
Qed.

Lemma closeableTabs_has (settings : Settings) (tabs : list Tab) (tab : Tab) :
  In tab tabs -> pinned tab = false -> closeable settings tab = true ->
  In tab (array_sort lastAccessed_gt
            (filter (closeable settings)
                    (filter (fun tab => negb (pinned tab)) tabs))).
Proof.
  intros Hin Hp Hc.
  apply (Permutation_in _ (array_sort_perm _ _ _)).
  apply filter_In. split; [|exact Hc].
  apply filter_In. split; [exact Hin|]. rewrite Hp. reflexivity.
Qed.

(** X27.  On such a host, within a window whose timestamps are known: when a tab
    is closed, every closeable tab past its threshold that was accessed
    strictly earlier is closed as well. *)
Lemma oldest_closed_first (now : Z) (settings : Settings) (tabs : list Tab)
    (r : CloseInfo) (a b : Tab) :
  Forall known_instant tabs ->
  perWindowResult now settings tabs = Some r ->
  In b (res_tabsToClose r) ->
  In a tabs -> pinned a = false -> closeable settings a = true ->
  js_lt (threshold settings a) (Fin now) = true ->
  js_lt (to_number (lastAccessed a)) (to_number (lastAccessed b)) = true ->
  In a (res_tabsToClose r).
Proof.
  intros Hknown Hr Hb Ha Hp Hc Hnow Hlt.
  assert (Hgoal :
            forall n,
              In b (firstn n
                      (filter (fun tab =>
                                 js_lt (threshold settings tab) (Fin now))
                         (array_sort lastAccessed_gt
                            (filter (closeable settings)
                               (filter (fun tab => negb (pinned tab)) tabs)))))
              -> In a (firstn n
                      (filter (fun tab =>
                                 js_lt (threshold settings tab) (Fin now))
                         (array_sort lastAccessed_gt
                            (filter (closeable settings)
                               (filter (fun tab => negb (pinned tab))
                                       tabs)))))).
  { intros n Hbn.
    apply (sorted_prefix_closed lastAccessed_le n _ a b); auto.
    - apply StronglySorted_filter, closeableTabs_sorted, Hknown.
    - apply filter_In. split; [|exact Hnow].
      apply closeableTabs_has; assumption.
    - unfold lastAccessed_le, js_le.
      rewrite (js_lt_not_ge _ _ Hlt). discriminate. }
  unfold perWindowResult in Hr.
  destruct (_ <=? 0).
  - injection Hr as <-. destruct Hb.
  - destruct (_ || _).
    + injection Hr as <-. simpl in *. apply Hgoal. exact Hb.
    + destruct (filter (fun tab => js_ge _ _) _); [discriminate|].
      injection Hr as <-. simpl in *. apply Hgoal. exact Hb.
Qed.

(** X28.  On such a host a window's finite next check is the earliest threshold
    among its closeable tabs still to come. *)
Lemma window_next_is_earliest (now : Z) (settings : Settings)
    (tabs : list Tab) (r : CloseInfo) (tab : Tab) :
  Forall known_instant tabs ->
  perWindowResult now settings tabs = Some r ->
  In tab tabs -> pinned tab = false -> closeable settings tab = true ->
  js_ge (threshold settings tab) (Fin now) = true ->
  res_nextCheck r = PInf
  \/ js_le (res_nextCheck r) (threshold settings tab) = true.
Proof.
  intros Hknown Hr Hin Hp Hc Hge.
  pose proof (closeableTabs_sorted settings tabs Hknown) as Hsorted.
  pose proof (closeableTabs_has settings tabs tab Hin Hp Hc) as Hhas.
  apply (StronglySorted_filter _
           (fun tab => js_ge (threshold settings tab) (Fin now))) in Hsorted.
  assert (Hlater :
            In tab (filter (fun tab => js_ge (threshold settings tab) (Fin now))
                      (array_sort lastAccessed_gt
                         (filter (closeable settings)
                            (filter (fun tab => negb (pinned tab)) tabs)))))
    by (apply filter_In; auto).
  unfold perWindowResult in Hr.
  destruct (_ <=? 0); [injection Hr as <-; left; reflexivity|].
  destruct (_ || _); [injection Hr as <-; left; reflexivity|].
  destruct (filter (fun tab => js_ge _ _) _) as [|first rest] eqn:E;
    [discriminate|].
  injection Hr as <-. right. simpl.
  assert (Hle : lastAccessed_le first tab).
  { destruct Hlater as [<-|Hrest].
    - assert (Hk : known_instant first).
      { rewrite Forall_forall in Hknown. apply Hknown. exact Hin. }
      destruct Hk as [z Hz]. unfold lastAccessed_le. rewrite Hz. simpl.
      apply Z.leb_refl.
    - inversion Hsorted as [|? ? _ Hhead]; subst.
      rewrite Forall_forall in Hhead. apply Hhead. exact Hrest. }
  unfold lastAccessed_le in Hle. unfold threshold.
  destruct (to_number (lastAccessed first)) as [z1| | |],
    (to_number (lastAccessed tab)) as [z2| | |]; simpl in *;
    try discriminate; try reflexivity.
  apply Z.leb_le in Hle. apply Z.leb_le. lia.
Qed.
End SortingHost.

(** * The decision engine, further *)

Lemma filter_Permutation {A : Type} (f : A -> bool) (l l' : list A) :
  Permutation l l' -> Permutation (filter f l) (filter f l').
Proof.
  induction 1 as [|x l l' _ IH|x y l|l l' l'' _ IH1 _ IH2]; simpl.
  - constructor.
  - destruct (f x); [constructor|]; exact IH.
  - destruct (f x), (f y); try apply Permutation_refl. constructor.
  - eapply perm_trans; eassumption.
Qed.

Lemma filter_complement {A : Type} (f : A -> bool) (l : list A) :
  Permutation l (filter f l ++ filter (fun x => negb (f x)) l).
Proof.
  induction l as [|x l IH]; simpl.
  - constructor.
  - destruct (f x); simpl.
    + constructor. exact IH.
    + apply Permutation_cons_app. exact IH.
Qed.

Lemma filter_all {A : Type} (f : A -> bool) (l : list A) :
  Forall (fun x => f x = true) l -> filter f l = l.
Proof.
  induction 1 as [|x l Hx _ IH]; simpl.
  - reflexivity.
  - rewrite Hx, IH. reflexivity.
Qed.

Section DecisionShape.
Context {engine : SortEngine}.

Local Abbreviation unpinned := (fun tab : Tab => negb (pinned tab)).

Lemma nowCloseableTabs_count (now : Z) (settings : Settings)
    (tabs : list Tab) :
  Permutation
    (filter (now_closeable now settings) tabs)
    (filter (fun tab => js_lt (threshold settings tab) (Fin now))
       (array_sort lastAccessed_gt
          (filter (closeable settings) (filter unpinned tabs)))).
Proof.
  eapply perm_trans;
    [|apply filter_Permutation, array_sort_perm].
  rewrite !filter_filter_andb.
  erewrite filter_ext; [apply Permutation_refl|].
  intros tab. unfold now_closeable.
  destruct (pinned tab), (closeable settings tab),
    (js_lt (threshold settings tab) (Fin now)); reflexivity.
Qed.

Lemma onlyLaterCloseableTabs_count (now : Z) (settings : Settings)
    (tabs : list Tab) :
  Permutation
    (filter (later_closeable now settings) tabs)
    (filter (fun tab => js_ge (threshold settings tab) (Fin now))
       (array_sort lastAccessed_gt
          (filter (closeable settings) (filter unpinned tabs)))).
Proof.
  eapply perm_trans;
    [|apply filter_Permutation, array_sort_perm].
  rewrite !filter_filter_andb.
  erewrite filter_ext; [apply Permutation_refl|].
  intros tab. unfold later_closeable.
  destruct (pinned tab), (closeable settings tab),
    (js_ge (threshold settings tab) (Fin now)); reflexivity.
Qed.

(** The tabs a window closes are taken out of the window's tabs, each at
    most once. *)
Lemma firstn_nowCloseable_taken (now : Z) (settings : Settings)
    (tabs : list Tab) (n : nat) :
  exists rest,
    Permutation tabs
      (firstn n
         (filter (fun tab => js_lt (threshold settings tab) (Fin now))
            (array_sort lastAccessed_gt
               (filter (closeable settings) (filter unpinned tabs))))
       ++ rest).
Proof.
  set (sorted := array_sort lastAccessed_gt
                   (filter (closeable settings) (filter unpinned tabs))).
  set (f := fun tab => js_lt (threshold settings tab) (Fin now)).
  exists (skipn n (filter f sorted)
          ++ filter (fun x => negb (f x)) sorted
          ++ filter (fun x => negb (closeable settings x))
                    (filter unpinned tabs)
          ++ filter (fun x => negb (unpinned x)) tabs).
  rewrite app_assoc, firstn_skipn.
  eapply perm_trans; [apply (filter_complement unpinned)|].
  rewrite !app_assoc. apply Permutation_app_tail.
  eapply perm_trans; [apply (filter_complement (closeable settings))|].
  apply Permutation_app_tail.
  eapply perm_trans; [apply array_sort_perm|].
  apply filter_complement.
Qed.

(** The result of one window, in numbers. *)
Record window_exact (now : Z) (settings : Settings) (tabs : list Tab)
    (r : CloseInfo) : Prop := {
  closed_count :
    Z.of_nat (length (res_tabsToClose r))
    = Z.min (Z.max 0 (Z.of_nat (length (filter unpinned tabs))
                      - minTabsCount settings))
            (Z.of_nat (length (filter (now_closeable now settings) tabs)));
  next_finite :
    res_nextCheck r = PInf
    <-> ~ (Z.of_nat (length (filter (now_closeable now settings) tabs))
           < Z.of_nat (length (filter unpinned tabs)) - minTabsCount settings
           /\ (0 < length (filter (later_closeable now settings) tabs))%nat);
  closed_taken :
    exists rest, Permutation tabs (res_tabsToClose r ++ rest)
}.

Lemma perWindowResult_exact (now : Z) (settings : Settings) (tabs : list Tab)
    (r : CloseInfo) :
  perWindowResult now settings tabs = Some r ->
  window_exact now settings tabs r.
Proof.
  unfold perWindowResult.
  pose proof (Permutation_length (nowCloseableTabs_count now settings tabs))
    as Hnow.
  pose proof (Permutation_length
                (onlyLaterCloseableTabs_count now settings tabs)) as Hlater.
  set (budget := Z.of_nat (length (filter unpinned tabs))
                 - minTabsCount settings) in *.
  destruct (budget <=? 0) eqn:Hb.
  - apply Z.leb_le in Hb. intros [= <-]. split; simpl.
    + lia.
    + split; [lia|reflexivity].
    + exists tabs. apply Permutation_refl.
  - apply Z.leb_gt in Hb.
    destruct (firstn_nowCloseable_taken now settings tabs (Z.to_nat budget))
      as [rest Hrest].
    set (nowCloseableTabs :=
           filter (fun tab => js_lt (threshold settings tab) (Fin now)) _)
      in *.
    set (onlyLaterCloseableTabs :=
           filter (fun tab => js_ge (threshold settings tab) (Fin now)) _)
      in *.
    pose proof (length_firstn (Z.to_nat budget) nowCloseableTabs) as Hlen.
    destruct ((Z.of_nat (length (firstn (Z.to_nat budget) nowCloseableTabs))
               =? budget)
              || (length onlyLaterCloseableTabs =? 0)%nat) eqn:Hdone.
    + intros [= <-]. split; simpl.
      * lia.
      * split; [|reflexivity]. intros _.
        apply orb_true_iff in Hdone. destruct Hdone as [Hd|Hd].
        -- apply Z.eqb_eq in Hd. lia.
        -- apply Nat.eqb_eq in Hd. lia.
      * exists rest. exact Hrest.
    + apply orb_false_iff in Hdone. destruct Hdone as [Hd1 Hd2].
      apply Z.eqb_neq in Hd1. apply Nat.eqb_neq in Hd2.
      destruct onlyLaterCloseableTabs as [|first later] eqn:E;
        [contradiction|].
      intros [= <-]. split; simpl.
      * lia.
      * assert (Hfirst : In first (first :: later)) by (left; reflexivity).
        rewrite <- E in Hfirst. apply filter_In in Hfirst.
        destruct Hfirst as [Hin Hge].
        apply closeableTabs_In in Hin. destruct Hin as (_ & _ & Hc).
        destruct (closeable_later now settings first Hc Hge)
          as (z & _ & Hth & _).
        rewrite Hth. split; [discriminate|].
        intros Hnot. elim Hnot. simpl in Hlater. lia.
      * exists rest. exact Hrest.
Qed.
End DecisionShape.

Section DecisionWhole.
Context {engine : SortEngine}.

Local Abbreviation in_window w := (fun tab : Tab => windowId tab =? w).

Lemma decisions_per_window (now : Z) (settings : Settings) (tabs : list Tab) :
  exists results,
    tabsToClose now settings tabs
    = Some {| res_tabsToClose := concat (map res_tabsToClose results);
              res_nextCheck := Math_min (map res_nextCheck results) |}
    /\ Forall2 (fun w r =>
                  perWindowResult now settings (filter (in_window w) tabs)
                  = Some r)
               (array_from_set (map windowId tabs)) results.
Proof.
  unfold tabsToClose, perWindowResults, tabsByWindow.
  destruct (map_exn_map_inv (perWindowResult now settings)
              (fun w => filter (in_window w) tabs)
              (fun w r =>
                 perWindowResult now settings (filter (in_window w) tabs)
                 = Some r)
              (array_from_set (map windowId tabs)))
    as (results & Hr & Hall).
  - intros w.
    destruct (perWindowResult_inv now settings (filter (in_window w) tabs))
      as (r & Hr & _).
    exists r. split; exact Hr.
  - exists results. rewrite Hr. split; [reflexivity|exact Hall].
Qed.

Lemma decisions_ok (now : Z) (settings : Settings) (tabs : list Tab)
    (ws : list Z) (results : list CloseInfo) :
  Forall2 (fun w r =>
             perWindowResult now settings (filter (in_window w) tabs)
             = Some r) ws results ->
  Forall2 (fun w r =>
             window_ok now settings (filter (in_window w) tabs) r)
          ws results.
Proof.
  induction 1 as [|w r ws results Hr _ IH]; constructor; [|exact IH].
  destruct (perWindowResult_inv now settings (filter (in_window w) tabs))
    as (r' & Hr' & Hok).
  congruence.
Qed.

(** The part of the close-set that lies in window [w]. *)
Lemma close_set_of_window (now : Z) (settings : Settings) (tabs : list Tab)
    (w : Z) (ws : list Z) (results : list CloseInfo) :
  Forall2 (fun w r =>
             perWindowResult now settings (filter (in_window w) tabs)
             = Some r) ws results ->
  NoDup ws ->
  exists rw,
    perWindowResult now settings (filter (in_window w) tabs) = Some rw
    /\ filter (in_window w) (concat (map res_tabsToClose results))
       = if existsb (Z.eqb w) ws then res_tabsToClose rw else [].
Proof.
  intros Hall Hnd.
  destruct (perWindowResult_inv now settings (filter (in_window w) tabs))
    as (rw & Hrw & Hokw).
  exists rw. split; [exact Hrw|].
  induction Hall as [|w' r ws results Hr Hrest IH].
  - reflexivity.
  - inversion Hnd as [|? ? Hnotin Hnd']; subst.
    pose proof (decisions_ok _ _ _ _ _ Hrest) as Hoks.
    cbn [map concat existsb]. rewrite filter_app.
    destruct (Z.eqb_spec w w') as [<-|Hne].
    + rewrite (absent_window_closes_nothing _ _ _ w ws results Hoks Hnotin).
      rewrite app_nil_r. simpl.
      assert (r = rw) by congruence. subst r.
      apply filter_all.
      eapply Forall_impl; [|exact (closed_ok _ _ _ _ Hokw)].
      intros tab (Hin & _). apply filter_In in Hin. tauto.
    + destruct (perWindowResult_inv now settings (filter (in_window w') tabs))
        as (r' & Hr' & Hok').
      assert (r' = r) by congruence. subst r'.
      rewrite (other_window_closes_nothing _ _ _ w w' r Hok')
        by congruence.
      simpl. apply IH. exact Hnd'.
Qed.

Lemma existsb_eqb_In (w : Z) (ws : list Z) :
  existsb (Z.eqb w) ws = true <-> In w ws.
Proof.
  rewrite existsb_exists. split.
  - intros (x & Hin & Heq). apply Z.eqb_eq in Heq. subst x. exact Hin.
  - intros Hin. exists w. split; [exact Hin|apply Z.eqb_refl].
Qed.

Lemma window_without_tabs (tabs : list Tab) (w : Z) :
  existsb (Z.eqb w) (array_from_set (map windowId tabs)) = false ->
  filter (in_window w) tabs = [].
Proof.
  intros Hnot. apply filter_none. apply Forall_forall. intros tab Hin.
  apply Z.eqb_neq. intros Heq.
  assert (existsb (Z.eqb w) (array_from_set (map windowId tabs)) = true).
  { apply existsb_eqb_In, array_from_set_In.
    rewrite <- Heq. apply in_map. exact Hin. }
  congruence.
Qed.

Lemma perWindowResult_of_nothing (now : Z) (settings : Settings)
    (r : CloseInfo) :
  perWindowResult now settings [] = Some r ->
  res_tabsToClose r = [] /\ res_nextCheck r = PInf.
Proof.
  intros Hr.
  destruct (perWindowResult_inv now settings []) as (r' & Hr' & Hok).
  assert (r' = r) by congruence. subst r'.
  split.
  - pose proof (closed_ok _ _ _ _ Hok) as Hc.
    destruct (res_tabsToClose r) as [|tab l]; [reflexivity|].
    inversion Hc as [|? ? (Hin & _) _]. destruct Hin.
  - destruct (next_ok _ _ _ _ Hok) as [H|(tab & Hin & _)];
      [exact H|destruct Hin].
Qed.
End DecisionWhole.

Section DecisionExtras.
Context {engine : SortEngine}.

Local Abbreviation in_window w := (fun tab : Tab => windowId tab =? w).

(** The tabs of window [w] in the close-set are the close-set of the
    window's own result. *)
Lemma window_share (now : Z) (settings : Settings) (tabs : list Tab) (w : Z) :
  exists r rw,
    tabsToClose now settings tabs = Some r
    /\ perWindowResult now settings (filter (in_window w) tabs) = Some rw
    /\ filter (in_window w) (res_tabsToClose r) = res_tabsToClose rw.
Proof.
  destruct (decisions_per_window now settings tabs) as (results & Hr & Hall).
  destruct (close_set_of_window now settings tabs w _ _ Hall
              (array_from_set_NoDup _)) as (rw & Hrw & Hshare).
  eexists. exists rw. split; [exact Hr|]. split; [exact Hrw|].
  cbn [res_tabsToClose]. rewrite Hshare.
  destruct (existsb (Z.eqb w) (array_from_set (map windowId tabs))) eqn:E;
    [reflexivity|].
  rewrite (window_without_tabs tabs w E) in Hrw.
  symmetry. apply (perWindowResult_of_nothing now settings rw Hrw).
Qed.

(** X1.  Nothing protected is ever closed: a tab of the close-set is a tab of
    the input that is not pinned, not audible, not marked with
    [lastAccessed = Infinity] and, when groups are excluded, in no
    group. *)
Theorem close_set_spares_protected_tabs (now : Z) (settings : Settings)
    (tabs : list Tab) :
  exists r,
    tabsToClose now settings tabs = Some r
    /\ Forall (fun tab =>
                 In tab tabs
                 /\ pinned tab = false
                 /\ audible tab = false
                 /\ lastAccessed tab <> Some PInf
                 /\ excludeTabsInGroups settings
                    && negb (no_group (groupId tab)) = false)
              (res_tabsToClose r).
Proof.
  destruct (tabsToClose_inv now settings tabs) as (results & _ & Hr & Hall).
  eexists. split; [exact Hr|]. cbn [res_tabsToClose].
  eapply Forall_impl; [|exact (close_set_members _ _ _ _ _ Hall)].
  intros tab (Hin & Hp & Hc & _).
  apply closeable_iff in Hc. destruct Hc as (Ha & Hla & Hg).
  repeat split; auto.
  - intros Heq. rewrite Heq in Hla. discriminate.
  - destruct (excludeTabsInGroups settings); [|reflexivity].
    rewrite Hg; reflexivity.
Qed.

Lemma closed_count_exact (now : Z) (settings : Settings)
    (tabs : list Tab) :
  exists r,
    tabsToClose now settings tabs = Some r
    /\ forall w : Z,
         Z.of_nat (length (filter (in_window w) (res_tabsToClose r)))
         = Z.min
             (Z.max 0
                (Z.of_nat
                   (length (filter (fun tab => negb (pinned tab)
                                               && (windowId tab =? w)) tabs))
                 - minTabsCount settings))
             (Z.of_nat
                (length (filter (fun tab => now_closeable now settings tab
                                            && (windowId tab =? w)) tabs))).
Proof.
  destruct (tabsToClose_inv now settings tabs) as (results & _ & Hr & _).
  eexists. split; [exact Hr|]. intros w.
  destruct (window_share now settings tabs w) as (r & rw & Hr' & Hrw & Hshare).
  rewrite Hr in Hr'. injection Hr' as <-.
  rewrite Hshare.
  pose proof (closed_count _ _ _ _ (perWindowResult_exact _ _ _ _ Hrw)) as Hc.
  rewrite !filter_filter_andb in Hc. exact Hc.
Qed.

(** X2.  The engine closes as many tabs as it may: in every window the number
    of closed tabs is the smaller of the budget
    [max(0, unpinned - minTabsCount)] and the number of unpinned tabs that
    pass the filter and are past their threshold. *)
Theorem closes_as_many_as_allowed (now : Z) (settings : Settings)
    (tabs : list Tab) :
  exists r,
    tabsToClose now settings tabs = Some r
    /\ forall w : Z,
         Z.of_nat (length (filter (in_window w) (res_tabsToClose r)))
         = Z.min
             (Z.max 0
                (Z.of_nat
                   (length (filter (fun tab => negb (pinned tab)
                                               && (windowId tab =? w)) tabs))
                 - minTabsCount settings))
             (Z.of_nat
                (length (filter (fun tab => now_closeable now settings tab
                                            && (windowId tab =? w)) tabs))).
Proof. apply closed_count_exact. Qed.
End DecisionExtras.

Section DecisionSchedule.
Context {engine : SortEngine}.

Local Abbreviation in_window w := (fun tab : Tab => windowId tab =? w).

Lemma window_next_finite (now : Z) (settings : Settings) (tabs : list Tab)
    (w : Z) (rw : CloseInfo) :
  perWindowResult now settings (filter (in_window w) tabs) = Some rw ->
  res_nextCheck rw = PInf <-> ~ window_waiting now settings tabs w.
Proof.
  intros Hrw.
  pose proof (next_finite _ _ _ _ (perWindowResult_exact _ _ _ _ Hrw)) as H.
  rewrite !filter_filter_andb in H. unfold window_waiting.
  rewrite H. split; intros Hn Hw; apply Hn; (split; [tauto|lia]).
Qed.

Lemma Forall2_In_left {A B : Type} (R : A -> B -> Prop) (xs : list A)
    (ys : list B) (x : A) :
  Forall2 R xs ys -> In x xs -> exists y, In y ys /\ R x y.
Proof.
  induction 1 as [|a b xs ys Hab _ IH]; intros Hin.
  - destruct Hin.
  - destruct Hin as [<-|Hin].
    + exists b. split; [left; reflexivity|exact Hab].
    + destruct (IH Hin) as (y & Hy & HR). exists y. split; [right|]; auto.
Qed.

Lemma Forall2_In_right {A B : Type} (R : A -> B -> Prop) (xs : list A)
    (ys : list B) (y : B) :
  Forall2 R xs ys -> In y ys -> exists x, In x xs /\ R x y.
Proof.
  induction 1 as [|a b xs ys Hab _ IH]; intros Hin.
  - destruct Hin.
  - destruct Hin as [<-|Hin].
    + exists a. split; [left; reflexivity|exact Hab].
    + destruct (IH Hin) as (x & Hx & HR). exists x. split; [right|]; auto.
Qed.

Lemma nextCheck_infinite_iff (now : Z) (settings : Settings)
    (tabs : list Tab) :
  exists r,
    tabsToClose now settings tabs = Some r
    /\ (res_nextCheck r = PInf
        <-> forall w, ~ window_waiting now settings tabs w).
Proof.
  destruct (decisions_per_window now settings tabs) as (results & Hr & Hall).
  eexists. split; [exact Hr|]. cbn [res_nextCheck].
  pose proof (window_next_checks _ _ _ _ _ (decisions_ok _ _ _ _ _ Hall))
    as Hnext.
  assert (Hwake : Forall is_wake (map res_nextCheck results)).
  { eapply Forall_impl; [|exact Hnext].
    intros v [->|(tab & z & _ & _ & _ & _ & -> & _)];
      [left; reflexivity|right; eexists; reflexivity]. }
  destruct (Math_min_cases _ Hwake) as [[Hm Hinf]|(T & Hm & Hin & _)];
    rewrite Hm.
  - split; [intros _|reflexivity]. intros w.
    destruct (perWindowResult_inv now settings (filter (in_window w) tabs))
      as (rw & Hrw & _).
    apply (window_next_finite now settings tabs w rw Hrw).
    destruct (existsb (Z.eqb w) (array_from_set (map windowId tabs))) eqn:E.
    + apply existsb_eqb_In in E.
      destruct (Forall2_In_left _ _ _ w Hall E) as (r & Hinr & Hrr).
      assert (r = rw) by congruence. subst r.
      rewrite Forall_forall in Hinf. apply Hinf.
      apply in_map. exact Hinr.
    + rewrite (window_without_tabs tabs w E) in Hrw.
      apply (perWindowResult_of_nothing now settings rw Hrw).
  - split; [discriminate|]. intros Hnone. exfalso.
    apply in_map_iff in Hin. destruct Hin as (r & Hv & Hinr).
    destruct (Forall2_In_right _ _ _ r Hall Hinr) as (w & _ & Hrw).
    pose proof (proj2 (window_next_finite now settings tabs w r Hrw)
                  (Hnone w)) as Hinf.
    congruence.
Qed.

(** X3.  No wake-up is missed and none is idle: the next check is [Infinity]
    exactly when no window is waiting. *)
Theorem wake_scheduled_iff_waiting (now : Z) (settings : Settings)
    (tabs : list Tab) :
  exists r,
    tabsToClose now settings tabs = Some r
    /\ (res_nextCheck r = PInf
        <-> forall w, ~ window_waiting now settings tabs w).
Proof. apply nextCheck_infinite_iff. Qed.

Lemma one_window_set (w : Z) (l : list Z) :
  Forall (fun x => x = w) l -> l <> [] -> array_from_set l = [w].
Proof.
  intros Hall Hne.
  pose proof (array_from_set_NoDup l) as Hnd.
  assert (Hin : forall x, In x (array_from_set l) <-> x = w).
  { intros x. rewrite array_from_set_In. split.
    - intros H. rewrite Forall_forall in Hall. apply Hall. exact H.
    - intros ->. destruct l as [|y l]; [contradiction|].
      inversion Hall; subst. left. reflexivity. }
  destruct (array_from_set l) as [|a [|b rest]].
  - exfalso. apply (proj2 (Hin w) eq_refl).
  - f_equal. apply Hin. left. reflexivity.
  - exfalso. inversion Hnd as [|? ? Hnot _]; subst. apply Hnot.
    assert (a = w) by (apply Hin; left; reflexivity).
    assert (b = w) by (apply Hin; right; left; reflexivity).
    subst. left. reflexivity.
Qed.

(** X4.  Windows are decided independently: run on the tabs of window [w]
    alone, the engine closes what the whole run closes in [w]; and the
    whole run's next check is not later than the window's own. *)
Theorem windows_decided_independently (now : Z) (settings : Settings)
    (tabs : list Tab) (w : Z) :
  exists r rw,
    tabsToClose now settings tabs = Some r
    /\ tabsToClose now settings (filter (in_window w) tabs) = Some rw
    /\ res_tabsToClose rw = filter (in_window w) (res_tabsToClose r)
    /\ js_le (res_nextCheck r) (res_nextCheck rw) = true.
Proof.
  destruct (decisions_per_window now settings tabs) as (results & Hr & Hall).
  destruct (window_share now settings tabs w) as (r & pw & Hr' & Hpw & Hshare).
  exists r.
  assert (Hmin : forall v, In v (map res_nextCheck results) ->
                           js_le (res_nextCheck r) v = true).
  { intros v Hv. rewrite Hr in Hr'. injection Hr' as <-. cbn [res_nextCheck].
    pose proof (window_next_checks _ _ _ _ _ (decisions_ok _ _ _ _ _ Hall))
      as Hnext.
    assert (Hwake : Forall is_wake (map res_nextCheck results)).
    { eapply Forall_impl; [|exact Hnext].
      intros x [->|(tab & z & _ & _ & _ & _ & -> & _)];
        [left; reflexivity|right; eexists; reflexivity]. }
    destruct (Math_min_cases _ Hwake) as [[Hm Hinf]|(T & Hm & _ & Hle)];
      rewrite Hm.
    - rewrite Forall_forall in Hinf. rewrite (Hinf v Hv). reflexivity.
    - rewrite Forall_forall in Hle. apply Hle. exact Hv. }
  destruct (filter (in_window w) tabs) as [|tab ts] eqn:E.
  - exists {| res_tabsToClose := []; res_nextCheck := PInf |}.
    destruct (perWindowResult_of_nothing now settings pw Hpw) as [Hc Hn].
    split; [exact Hr'|]. split; [reflexivity|]. simpl. split.
    + rewrite Hshare, Hc. reflexivity.
    + destruct (res_nextCheck r) eqn:En; try reflexivity.
      exfalso. rewrite Hr in Hr'. injection Hr' as <-. simpl in En.
      pose proof (window_next_checks _ _ _ _ _ (decisions_ok _ _ _ _ _ Hall))
        as Hnext.
      assert (Hwake : Forall is_wake (map res_nextCheck results)).
      { eapply Forall_impl; [|exact Hnext].
        intros x [->|(t & z & _ & _ & _ & _ & -> & _)];
          [left; reflexivity|right; eexists; reflexivity]. }
      destruct (Math_min_cases _ Hwake) as [[Hm _]|(T & Hm & _ & _)];
        congruence.
  - rewrite <- E in *.
    assert (Hset : array_from_set (map windowId (filter (in_window w) tabs))
                   = [w]).
    { apply one_window_set.
      - apply Forall_map, Forall_forall. intros t Ht.
        apply filter_In in Ht. apply Z.eqb_eq. tauto.
      - rewrite E. discriminate. }
    assert (Hsame : filter (in_window w) (filter (in_window w) tabs)
                    = filter (in_window w) tabs).
    { apply filter_all, Forall_forall. intros t Ht.
      apply filter_In in Ht. tauto. }
    assert (Hinw : In w (array_from_set (map windowId tabs))).
    { apply array_from_set_In.
      assert (Ht : In tab (filter (in_window w) tabs))
        by (rewrite E; left; reflexivity).
      apply filter_In in Ht. destruct Ht as [Ht Hw].
      apply Z.eqb_eq in Hw. rewrite <- Hw. apply in_map. exact Ht. }
    destruct (Forall2_In_left _ _ _ w Hall Hinw) as (r0 & Hin0 & Hr0).
    assert (r0 = pw) by congruence. subst r0.
    eexists. split; [exact Hr'|]. split.
    + unfold tabsToClose, perWindowResults, tabsByWindow.
      rewrite Hset. cbn [map map_exn]. rewrite Hsame, Hpw. reflexivity.
    + cbn [res_tabsToClose res_nextCheck map concat Math_min fold_right].
      rewrite app_nil_r. split; [symmetry; exact Hshare|].
      pose proof (Hmin _ (in_map res_nextCheck _ _ Hin0)) as Hle.
      destruct (res_nextCheck pw); simpl; exact Hle.
Qed.
End DecisionSchedule.

Section DecisionTaken.
Context {engine : SortEngine}.

Local Abbreviation in_window w := (fun tab : Tab => windowId tab =? w).

(** The windows part the tabs. *)
Lemma windows_part_tabs (ws : list Z) :
  NoDup ws ->
  forall tabs,
    Forall (fun tab => In (windowId tab) ws) tabs ->
    Permutation tabs (concat (map (fun w => filter (in_window w) tabs) ws)).
Proof.
  induction 1 as [|w ws Hnotin Hnd IH]; intros tabs Hall.
  - destruct tabs as [|tab tabs]; [constructor|].
    inversion Hall as [|? ? [] _].
  - cbn [map concat].
    eapply perm_trans; [apply (filter_complement (in_window w))|].
    apply Permutation_app_head.
    set (others := filter (fun tab => negb (windowId tab =? w)) tabs).
    assert (Hothers : Forall (fun tab => In (windowId tab) ws) others).
    { apply Forall_forall. intros tab Hin. apply filter_In in Hin.
      destruct Hin as [Hin Hne]. rewrite Forall_forall in Hall.
      destruct (Hall tab Hin) as [Heq|Hws]; [|exact Hws].
      apply negb_true_iff, Z.eqb_neq in Hne. congruence. }
    eapply perm_trans; [apply (IH others Hothers)|].
    erewrite map_ext_in; [apply Permutation_refl|].
    intros w' Hw'. unfold others. rewrite filter_filter_andb.
    apply filter_ext. intros tab.
    destruct (Z.eqb_spec (windowId tab) w') as [Heq|Hne]; [|reflexivity].
    destruct (Z.eqb_spec (windowId tab) w) as [Heq'|_]; [|reflexivity].
    exfalso. apply Hnotin. congruence.
Qed.

Lemma closes_taken_from_windows (now : Z) (settings : Settings)
    (tabs : list Tab) (ws : list Z) (results : list CloseInfo) :
  Forall2 (fun w r =>
             perWindowResult now settings (filter (in_window w) tabs)
             = Some r) ws results ->
  exists rest,
    Permutation (concat (map (fun w => filter (in_window w) tabs) ws))
                (concat (map res_tabsToClose results) ++ rest).
Proof.
  induction 1 as [|w r ws results Hr _ (rest & IH)]; cbn [map concat].
  - exists []. constructor.
  - destruct (closed_taken _ _ _ _ (perWindowResult_exact _ _ _ _ Hr))
      as (rest_w & Hw).
    exists (rest_w ++ rest).
    eapply perm_trans; [apply (Permutation_app Hw IH)|].
    rewrite <- !app_assoc. apply Permutation_app_head.
    rewrite !app_assoc. apply Permutation_app_tail.
    apply Permutation_app_comm.
Qed.

Lemma close_set_taken (now : Z) (settings : Settings) (tabs : list Tab) :
  exists r rest,
    tabsToClose now settings tabs = Some r
    /\ Permutation tabs (res_tabsToClose r ++ rest).
Proof.
  destruct (decisions_per_window now settings tabs) as (results & Hr & Hall).
  destruct (closes_taken_from_windows _ _ _ _ _ Hall) as (rest & Hrest).
  eexists. exists rest. split; [exact Hr|]. cbn [res_tabsToClose].
  eapply perm_trans; [|exact Hrest].
  apply windows_part_tabs; [apply array_from_set_NoDup|].
  apply Forall_forall. intros tab Hin.
  apply array_from_set_In, in_map. exact Hin.
Qed.

(** X5.  The close-set is taken out of the input: no tab is named more often
    than it occurs among the tabs. *)
Theorem close_set_taken_from_tabs (now : Z) (settings : Settings)
    (tabs : list Tab) :
  exists r rest,
    tabsToClose now settings tabs = Some r
    /\ Permutation tabs (res_tabsToClose r ++ rest).
Proof. apply close_set_taken. Qed.

(** X6.  Tabs with distinct ids give a close-set with distinct ids:
    [browser.tabs.remove] is never handed the same id twice. *)
Theorem close_set_ids_distinct (now : Z) (settings : Settings)
    (tabs : list Tab) :
  NoDup (map id tabs) ->
  exists r,
    tabsToClose now settings tabs = Some r
    /\ NoDup (map id (res_tabsToClose r)).
Proof.
  intros Hnd.
  destruct (close_set_taken now settings tabs)
    as (r & rest & Hr & Hperm).
  exists r. split; [exact Hr|].
  apply (Permutation_map id) in Hperm. rewrite map_app in Hperm.
  apply (Permutation_NoDup Hperm) in Hnd.
  apply NoDup_app_remove_r in Hnd. exact Hnd.
Qed.
End DecisionTaken.

Lemma close_set_ids_distinct_witness :
  NoDup (map id two_windows)
  /\ exists r,
       @tabsToClose insertion_engine 1000 (mkSettings 600 1 0) two_windows
       = Some r
       /\ NoDup (map id (res_tabsToClose r)).
Proof.
  assert (H : NoDup (map id two_windows)).
  { simpl. repeat constructor; simpl; intuition lia. }
  split; [exact H|].
  apply (@close_set_ids_distinct insertion_engine 1000 (mkSettings 600 1 0)
           two_windows H).
Defined.

(** * The history update, further *)

Section HistoryExtras.
Context {parser : UrlParser}.

Lemma filter_exn_In {A : Type} (f : A -> option bool) (xs ys : list A) :
  filter_exn f xs = Some ys ->
  Forall (fun y => In y xs /\ f y = Some true) ys.
Proof.
  revert ys; induction xs as [|x xs IH]; simpl; intros ys H.
  - injection H as <-. constructor.
  - destruct (f x) as [keep|] eqn:Hx; [|discriminate].
    destruct (filter_exn f xs) as [zs|]; [|discriminate].
    injection H as <-.
    assert (Hzs : Forall (fun y => (x = y \/ In y xs) /\ f y = Some true) zs).
    { eapply Forall_impl; [|apply IH; reflexivity]. intros y [Hy Hf]. tauto. }
    destruct keep; [constructor; auto|exact Hzs].
Qed.

Lemma saveableTab_true (tab : Tab) :
  saveableTab tab = Some true ->
  incognito tab = false
  /\ exists t u protocol,
       title tab = Some t /\ url tab = Some u
       /\ url_protocol u = Some protocol
       /\ ~ In protocol unsaveable_protocols.
Proof.
  unfold saveableTab.
  destruct (title tab) as [t|] eqn:Et; [|discriminate].
  destruct (url tab) as [u|] eqn:Eu; [|discriminate].
  destruct (url_protocol u) as [protocol|] eqn:Ep; [|discriminate].
  destruct (existsb (String.eqb protocol) unsaveable_protocols) eqn:E;
    [discriminate|].
  destruct (incognito tab); [discriminate|]. intros _.
  split; [reflexivity|]. exists t, u, protocol.
  split; [reflexivity|]. split; [reflexivity|]. split; [exact Ep|].
  intros Hin.
  assert (existsb (String.eqb protocol) unsaveable_protocols = true).
  { apply existsb_exists. exists protocol.
    split; [exact Hin|apply String.eqb_refl]. }
  congruence.
Qed.

(** X7.  Whatever the update returns, an entry of the new history is an entry
    of the old one or the record of a closed tab that is not incognito,
    has a title and a URL, and whose protocol is none of [chrome:],
    [javascript:], [data:], [file:], [about:]. *)
Theorem history_records_only_saveable (settings : Settings)
    (closed : list Tab) (oldHistory newHistory : list ClosedPageInfo) :
  autoclose_history settings closed oldHistory = Some newHistory ->
  Forall (fun page =>
            In page oldHistory
            \/ exists tab t u protocol,
                 In tab closed /\ page = closedPage tab
                 /\ incognito tab = false
                 /\ title tab = Some t /\ url tab = Some u
                 /\ url_protocol u = Some protocol
                 /\ ~ In protocol unsaveable_protocols)
         newHistory.
Proof.
  unfold autoclose_history.
  destruct (0 <? maxHistorySize settings).
  - destruct (filter_exn saveableTab closed) as [saved|] eqn:Hs;
      [|discriminate].
    intros [= <-]. apply Forall_forall. intros page Hin.
    apply firstn_In, in_app_or in Hin. destruct Hin as [Hin|Hin];
      [|left; exact Hin].
    right. apply in_map_iff in Hin. destruct Hin as (tab & <- & Htab).
    pose proof (filter_exn_In _ _ _ Hs) as Hall.
    rewrite Forall_forall in Hall. destruct (Hall tab Htab) as [Hc Hsave].
    destruct (saveableTab_true tab Hsave) as (Hi & t & u & p & H1 & H2 & H3 & H4).
    exists tab, t, u, p. repeat split; auto.
  - intros [= <-]. apply Forall_forall. intros page Hin. left. exact Hin.
Qed.

Lemma filter_saveableTab_throws (closed : list Tab) :
  filter_exn saveableTab closed = None
  <-> forallb url_parses closed = false.
Proof.
  split.
  - intros Hnone. destruct (forallb url_parses closed) eqn:E; [|reflexivity].
    rewrite (filter_saveableTab closed E) in Hnone. discriminate.
  - induction closed as [|tab closed IH]; simpl; [discriminate|].
    intros H. apply andb_false_iff in H.
    destruct (saveableTab tab) as [keep|] eqn:Hs; [|reflexivity].
    destruct H as [H|H].
    + exfalso. unfold saveableTab, url_parses in *.
      destruct (title tab), (url tab) as [u|]; try discriminate.
      destruct (url_protocol u); discriminate.
    + rewrite (IH H). reflexivity.
Qed.

(** X8.  The update throws exactly when history is on and [new URL] rejects the
    URL of a closed tab that has a title and a URL; with
    [maxHistorySize <= 0] no URL is looked at. *)
Theorem history_update_throws_iff (settings : Settings) (closed : list Tab)
    (oldHistory : list ClosedPageInfo) :
  autoclose_history settings closed oldHistory = None
  <-> (0 <? maxHistorySize settings) && negb (forallb url_parses closed)
      = true.
Proof.
  unfold autoclose_history.
  destruct (0 <? maxHistorySize settings); simpl.
  - rewrite negb_true_iff, <- filter_saveableTab_throws.
    destruct (filter_exn saveableTab closed); split; congruence.
  - split; discriminate.
Qed.
End HistoryExtras.

Definition tab_c : Tab :=
  {| id := 8; windowId := 1; lastAccessed := Some (Fin 0); pinned := false;
     audible := false; incognito := true; groupId := None;
     title := Some "C"%string; url := Some "https://c.example/"%string;
     favIconUrl := None |}.

Lemma history_records_only_saveable_witness :
  @autoclose_history scheme_parser (mkSettings 600 2 2) [tab_c; tab_b]
    [page_a]
  = Some [closedPage tab_b; page_a]
  /\ Forall (fun page =>
               In page [page_a]
               \/ exists tab t u protocol,
                    In tab [tab_c; tab_b] /\ page = closedPage tab
                    /\ incognito tab = false
                    /\ title tab = Some t /\ url tab = Some u
                    /\ @url_protocol scheme_parser u = Some protocol
                    /\ ~ In protocol unsaveable_protocols)
            [closedPage tab_b; page_a].
Proof.
  split; [reflexivity|].
  apply (@history_records_only_saveable scheme_parser (mkSettings 600 2 2)
           [tab_c; tab_b] [page_a]).
  reflexivity.
Defined.

(** * Persistent state *)

Lemma loadState_flags (got : option Storage) :
  stored_saveClosedPages (loaded_settings (loadState got)) = None
  /\ (exists flag,
        stored_clearHistoryOnExit (loaded_settings (loadState got))
        = Some flag)
  /\ (exists flag,
        stored_excludeTabsInGroups (loaded_settings (loadState got))
        = Some flag)
  /\ loaded_paused (loadState got) = false
  /\ loaded_autocloseTimeoutId (loadState got) = 0.
Proof.
  unfold loadState.
  set (settings := match item_settings _ with
                   | Some s => s
                   | None => stored defaultSettings
                   end).
  assert (Hdefault : stored_saveClosedPages (stored defaultSettings) = None)
    by reflexivity.
  cbn [loaded_settings loaded_paused loaded_autocloseTimeoutId].
  unfold default_flags, migrate_saveClosedPages.
  cbn [stored_saveClosedPages stored_clearHistoryOnExit
       stored_excludeTabsInGroups].
  repeat split.
  - destruct (stored_saveClosedPages settings) eqn:E; simpl; auto.
  - destruct (stored_saveClosedPages settings); simpl;
      destruct (stored_clearHistoryOnExit settings); eexists; reflexivity.
  - destruct (stored_saveClosedPages settings); simpl;
      destruct (stored_excludeTabsInGroups settings); eexists; reflexivity.
Qed.

(** X9.  [loadState] leaves no legacy flag behind, always answers with the two
    later flags set, with an unpaused state and without a timeout id. *)
Theorem loadState_normalises (got : option Storage) :
  stored_saveClosedPages (loaded_settings (loadState got)) = None
  /\ (exists flag,
        stored_clearHistoryOnExit (loaded_settings (loadState got))
        = Some flag)
  /\ (exists flag,
        stored_excludeTabsInGroups (loaded_settings (loadState got))
        = Some flag)
  /\ loaded_paused (loadState got) = false
  /\ loaded_autocloseTimeoutId (loadState got) = 0.
Proof. apply loadState_flags. Qed.

(** X10.  What [loadState] does not repair: the loaded settings are complete
    exactly when storage could not be read, or held no settings, or held
    settings with [minInactiveMilliseconds], [minTabsCount] and either
    [maxHistorySize] or the legacy flag. *)
Theorem loadState_complete_iff (got : option Storage) :
  (exists settings, complete (loaded_settings (loadState got)) = Some settings)
  <-> match got with
      | None => True
      | Some items =>
          match item_settings items with
          | None => True
          | Some settings =>
              stored_minInactiveMilliseconds settings <> None
              /\ stored_minTabsCount settings <> None
              /\ (stored_maxHistorySize settings <> None
                  \/ stored_saveClosedPages settings <> None)
          end
      end.
Proof.
  unfold loadState.
  destruct got as [[[settings|] history]|]; cbn -[defaultSettings];
    try (split; [auto|intros _; eexists; reflexivity]).
  unfold complete, default_flags, migrate_saveClosedPages.
  destruct settings as [inactive tabs size clear groups legacy]; simpl.
  destruct inactive, tabs, size, clear, groups, legacy; simpl;
    split;
    try (intros [_ [=]]);
    try (intros _; eexists; reflexivity);
    try (intros _; repeat split; try discriminate;
         (left; discriminate) || (right; discriminate));
    try (intros (H1 & H2 & [H3|H3]); congruence).
Qed.

(** X11.  The legacy flag decides the history size, whatever size is stored
    beside it: 1000 for [true], 0 for [false]. *)
Theorem loadState_migrates_legacy_flag (settings : StoredSettings)
    (history : option (list ClosedPageInfo)) (flag : bool) :
  stored_saveClosedPages settings = Some flag ->
  stored_maxHistorySize
    (loaded_settings
       (loadState (Some {| item_settings := Some settings;
                           item_history := history |})))
  = Some (if flag then 1000 else 0).
Proof.
  intros Hflag. unfold loadState. cbn -[defaultSettings].
  unfold migrate_saveClosedPages. rewrite Hflag. reflexivity.
Qed.

Definition legacy_settings : StoredSettings :=
  {| stored_minInactiveMilliseconds := Some 600000;
     stored_minTabsCount := Some 3;
     stored_maxHistorySize := Some 50;
     stored_clearHistoryOnExit := None;
     stored_excludeTabsInGroups := None;
     stored_saveClosedPages := Some false |}.

Lemma loadState_migrates_legacy_flag_witness :
  stored_saveClosedPages legacy_settings = Some false
  /\ stored_maxHistorySize
       (loaded_settings
          (loadState (Some {| item_settings := Some legacy_settings;
                              item_history := None |})))
     = Some (if false then 1000 else 0).
Proof.
  split; [reflexivity|].
  apply (loadState_migrates_legacy_flag legacy_settings None false).
  reflexivity.
Defined.

(** X12.  Loading is stable: storing what [loadState] answered and loading again
    answers the same. *)
Theorem loadState_stable (got : option Storage) :
  loadState
    (Some {| item_settings := Some (loaded_settings (loadState got));
             item_history := Some (loaded_history (loadState got)) |})
  = loadState got.
Proof.
  unfold loadState at 1. cbn [item_settings item_history].
  destruct (loadState_flags got) as (Hl & [c Hc] & [g Hg] & Hp & Ht).
  destruct (loadState got) as [settings history timeout paused] eqn:E.
  cbn [loaded_settings loaded_history loaded_paused
       loaded_autocloseTimeoutId] in *.
  destruct settings as [inactive tabs size clear groups legacy].
  cbn in Hl, Hc, Hg. subst. reflexivity.
Qed.

(** X13.  Settings written by [persistSettings] come back from [loadState]
    unchanged. *)
Theorem settings_round_trip (settings : Settings) (items : Storage) :
  option_map st_settings
    (running (loadState (Some (persistSettings (stored settings) items))))
  = Some settings.
Proof. destruct settings. reflexivity. Qed.

(** X14.  The history survives a reload exactly when [clearHistoryOnExit] is
    off: otherwise [persistHistory] deletes the stored history and
    [loadState] answers an empty one. *)
Theorem history_round_trip (state : State) (items : Storage) :
  loaded_history (loadState (Some (persistHistory state items)))
  = if clearHistoryOnExit (st_settings state) then [] else st_history state.
Proof.
  unfold persistHistory, loadState.
  destruct (clearHistoryOnExit (st_settings state)); reflexivity.
Qed.

(** * [autoclose] *)

Lemma NoDup_app_disjoint {A : Type} (l1 l2 : list A) (x : A) :
  NoDup (l1 ++ l2) -> In x l1 -> In x l2 -> False.
Proof.
  induction l1 as [|a l1 IH]; simpl; intros Hnd H1 H2.
  - exact H1.
  - inversion Hnd as [|? ? Hnot Hnd']; subst.
    destruct H1 as [->|H1].
    + apply Hnot, in_or_app. right. exact H2.
    + exact (IH Hnd' H1 H2).
Qed.

(** Removing the close-set by id leaves the other tabs, when ids are
    distinct. *)
Lemma tabs_remove_taken (close rest tabs : list Tab) :
  NoDup (map id tabs) ->
  Permutation tabs (close ++ rest) ->
  Permutation (tabs_remove (map id close) tabs) rest.
Proof.
  intros Hnd Hperm. unfold tabs_remove.
  eapply perm_trans; [apply filter_Permutation, Hperm|].
  rewrite filter_app.
  assert (Hids : NoDup (map id close ++ map id rest)).
  { rewrite <- map_app.
    apply (Permutation_NoDup (Permutation_map id Hperm) Hnd). }
  rewrite filter_none, filter_all; [apply Permutation_refl| |].
  - apply Forall_forall. intros tab Hin. apply negb_true_iff.
    destruct (existsb (Z.eqb (id tab)) (map id close)) eqn:E; [|reflexivity].
    exfalso. apply existsb_eqb_In in E.
    apply (NoDup_app_disjoint _ _ (id tab) Hids E). apply in_map. exact Hin.
  - apply Forall_forall. intros tab Hin. apply negb_false_iff.
    apply existsb_eqb_In, in_map. exact Hin.
Qed.

Lemma tabs_remove_nothing (tabs : list Tab) : tabs_remove [] tabs = tabs.
Proof.
  unfold tabs_remove. apply filter_all, Forall_forall. reflexivity.
Qed.

Lemma count_after_removal (q : Tab -> bool) (close rest tabs tabs' : list Tab) :
  Permutation tabs (close ++ rest) ->
  Permutation tabs' rest ->
  length (filter q tabs)
  = (length (filter q close) + length (filter q tabs'))%nat.
Proof.
  intros Hperm Hrest.
  rewrite (Permutation_length (filter_Permutation q _ _ Hperm)).
  rewrite filter_app, length_app.
  rewrite (Permutation_length (filter_Permutation q _ _ Hrest)).
  reflexivity.
Qed.

Section AutocloseFacts.
Context {engine : SortEngine} {parser : UrlParser}.

Local Abbreviation in_window w := (fun tab : Tab => windowId tab =? w).

(** What one call leaves behind, branch by branch. *)
Lemma autoclose_effects (now : Z) (state : State) (browser : Browser) :
  st_settings (state_after (autoclose now state browser)) = st_settings state
  /\ st_paused (state_after (autoclose now state browser)) = st_paused state
  /\ if st_paused state
     then state_after (autoclose now state browser) = state
          /\ open_tabs (browser_after (autoclose now state browser))
             = open_tabs browser
          /\ alarm (browser_after (autoclose now state browser)) = None
          /\ storage (browser_after (autoclose now state browser))
             = storage browser
     else exists decision,
          tabsToClose now (st_settings state) (open_tabs browser)
          = Some decision
          /\ open_tabs (browser_after (autoclose now state browser))
             = tabs_remove (map id (res_tabsToClose decision))
                           (open_tabs browser)
          /\ alarm (browser_after (autoclose now state browser))
             = (if js_lt (res_nextCheck decision) PInf
                then Some (js_add (js_sub (res_nextCheck decision) (Fin now))
                                  (Fin 1000))
                else None).
Proof.
  unfold autoclose, state_after, browser_after.
  destruct (st_paused state) eqn:Hp; cbn [open_tabs alarm storage].
  - simpl. rewrite Hp. repeat split.
  - destruct (tabsToClose_inv now (st_settings state) (open_tabs browser))
      as (results & _ & Hr & _).
    rewrite Hr.
    destruct (0 <? maxHistorySize (st_settings state)).
    + destruct (autoclose_history _ _ _); simpl; rewrite ?Hp;
        (split; [reflexivity|]); (split; [reflexivity|]);
        eexists; repeat split.
    + simpl. rewrite Hp. split; [reflexivity|]. split; [reflexivity|].
      eexists. repeat split.
Qed.

(** X15.  The alarm [autoclose] leaves is never due in the past: there is none,
    or it is due at least one second (1000 ms) after [now]. *)
Theorem autoclose_alarm_not_in_past (now : Z) (state : State)
    (browser : Browser) :
  alarm (browser_after (autoclose now state browser)) = None
  \/ exists d,
       alarm (browser_after (autoclose now state browser)) = Some (Fin d)
       /\ 1000 <= d.
Proof.
  destruct (autoclose_effects now state browser) as (_ & _ & H).
  destruct (st_paused state).
  - left. tauto.
  - destruct H as (decision & Hd & _ & Halarm). rewrite Halarm.
    destruct (tabsToClose_inv now (st_settings state) (open_tabs browser))
      as (results & _ & Hr & Hall).
    rewrite Hr in Hd. injection Hd as <-. cbn [res_nextCheck].
    destruct (nextCheck_cases _ _ _ _ Hall)
      as [[Hm _]|(T & tab & z & Hm & _ & _ & _ & _ & _ & _ & _ & Hnow)];
      rewrite Hm; simpl.
    + left. reflexivity.
    + right. eexists. split; [reflexivity|]. lia.
Qed.

(** X16.  [autoclose] leaves no alarm exactly when the script is paused or no
    window is waiting; an alarm from an earlier call is cleared either
    way. *)
Theorem autoclose_alarm_iff_waiting (now : Z) (state : State)
    (browser : Browser) :
  alarm (browser_after (autoclose now state browser)) = None
  <-> st_paused state = true
      \/ forall w,
           ~ window_waiting now (st_settings state) (open_tabs browser) w.
Proof.
  destruct (autoclose_effects now state browser) as (_ & _ & H).
  destruct (st_paused state).
  - split; [left; reflexivity|tauto].
  - destruct H as (decision & Hd & _ & Halarm). rewrite Halarm.
    destruct (nextCheck_infinite_iff now (st_settings state)
                (open_tabs browser)) as (r & Hr & Hiff).
    rewrite Hr in Hd. injection Hd as <-.
    destruct (tabsToClose_inv now (st_settings state) (open_tabs browser))
      as (results & _ & Hr' & Hall).
    rewrite Hr in Hr'. injection Hr' as ->. cbn [res_nextCheck] in *.
    destruct (nextCheck_cases _ _ _ _ Hall)
      as [[Hm _]|(T & tab & z & Hm & _)]; rewrite Hm in *; simpl.
    + split; [intros _; right; apply Hiff; reflexivity|reflexivity].
    + split; [discriminate|]. intros [Habs|Hnone]; [discriminate|].
      apply Hiff in Hnone. discriminate.
Qed.

Lemma autoclose_leaves_rest (now : Z) (state : State) (browser : Browser) :
  NoDup (map id (open_tabs browser)) ->
  st_paused state = false ->
  exists decision rest,
    tabsToClose now (st_settings state) (open_tabs browser) = Some decision
    /\ Permutation (open_tabs browser) (res_tabsToClose decision ++ rest)
    /\ Permutation (open_tabs (browser_after (autoclose now state browser)))
                   rest.
Proof.
  intros Hnd Hp.
  destruct (autoclose_effects now state browser) as (_ & _ & H).
  rewrite Hp in H. destruct H as (decision & Hd & Htabs & _).
  destruct (close_set_taken now (st_settings state) (open_tabs browser))
    as (r & rest & Hr & Hperm).
  rewrite Hd in Hr. injection Hr as <-.
  exists decision, rest. split; [exact Hd|]. split; [exact Hperm|].
  rewrite Htabs. apply tabs_remove_taken; assumption.
Qed.

Lemma closed_in_window_unpinned (now : Z) (settings : Settings)
    (tabs : list Tab) (decision : CloseInfo) (w : Z) :
  tabsToClose now settings tabs = Some decision ->
  filter (fun tab => negb (pinned tab) && (windowId tab =? w))
         (res_tabsToClose decision)
  = filter (in_window w) (res_tabsToClose decision)
  /\ filter (fun tab => now_closeable now settings tab && (windowId tab =? w))
            (res_tabsToClose decision)
     = filter (in_window w) (res_tabsToClose decision).
Proof.
  intros Hd.
  destruct (tabsToClose_inv now settings tabs) as (results & _ & Hr & Hall).
  rewrite Hr in Hd. injection Hd as <-. cbn [res_tabsToClose].
  pose proof (close_set_members _ _ _ _ _ Hall) as Hmem.
  rewrite Forall_forall in Hmem.
  split; apply filter_ext_in; intros tab Hin;
    destruct (Hmem tab Hin) as (_ & Hp & Hc & Hlt);
    unfold now_closeable; rewrite Hp, ?Hc, ?Hlt; reflexivity.
Qed.

(** X17.  With distinct tab ids, [autoclose] leaves in every window at least
    [min(minTabsCount, unpinned before)] unpinned tabs. *)
Theorem autoclose_keeps_floor (now : Z) (state : State) (browser : Browser)
    (w : Z) :
  NoDup (map id (open_tabs browser)) ->
  Z.min (minTabsCount (st_settings state))
        (Z.of_nat (length (unpinned_in w (open_tabs browser))))
  <= Z.of_nat
       (length (unpinned_in w
                  (open_tabs (browser_after (autoclose now state browser))))).
Proof.
  intros Hnd.
  destruct (st_paused state) eqn:Hp.
  - destruct (autoclose_effects now state browser) as (_ & _ & H).
    rewrite Hp in H. destruct H as (_ & -> & _). lia.
  - destruct (autoclose_leaves_rest now state browser Hnd Hp)
      as (decision & rest & Hd & Hperm & Hafter).
    unfold unpinned_in.
    rewrite (count_after_removal _ _ _ _ _ Hperm Hafter).
    destruct (closed_in_window_unpinned _ _ _ _ w Hd) as [-> _].
    destruct (closed_count_exact now (st_settings state) (open_tabs browser))
      as (r & Hr & Hcount).
    rewrite Hd in Hr. injection Hr as <-.
    specialize (Hcount w).
    rewrite (count_after_removal
               (fun tab => negb (pinned tab) && (windowId tab =? w))
               _ _ _ _ Hperm Hafter) in Hcount.
    destruct (closed_in_window_unpinned _ _ _ _ w Hd) as [Hu _].
    rewrite Hu in Hcount. lia.
Qed.
End AutocloseFacts.

Section AutocloseAgain.
Context {engine : SortEngine} {parser : UrlParser}.

Local Abbreviation in_window w := (fun tab : Tab => windowId tab =? w).

Lemma no_window_no_tab (l : list Tab) :
  (forall w, length (filter (in_window w) l) = O) -> l = [].
Proof.
  destruct l as [|tab l]; [reflexivity|]. intros H.
  specialize (H (windowId tab)). simpl in H.
  rewrite Z.eqb_refl in H. discriminate.
Qed.

(** Once the close-set is removed, the engine finds nothing more to close
    at the same instant. *)
Lemma nothing_left_to_close (now : Z) (settings : Settings)
    (tabs tabs' rest : list Tab) (first second : CloseInfo) :
  tabsToClose now settings tabs = Some first ->
  Permutation tabs (res_tabsToClose first ++ rest) ->
  Permutation tabs' rest ->
  tabsToClose now settings tabs' = Some second ->
  res_tabsToClose second = [].
Proof.
  intros Hfirst Hperm Hrest Hsecond.
  apply no_window_no_tab. intros w.
  destruct (closed_count_exact now settings tabs) as (r & Hr & Hc).
  rewrite Hfirst in Hr. injection Hr as <-. specialize (Hc w).
  destruct (closed_count_exact now settings tabs') as (r & Hr & Hc').
  rewrite Hsecond in Hr. injection Hr as <-. specialize (Hc' w).
  destruct (closed_in_window_unpinned _ _ _ _ w Hfirst) as [Hu Hn].
  rewrite (count_after_removal
             (fun tab => negb (pinned tab) && (windowId tab =? w))
             _ _ _ _ Hperm Hrest) in Hc.
  rewrite (count_after_removal
             (fun tab => now_closeable now settings tab && (windowId tab =? w))
             _ _ _ _ Hperm Hrest) in Hc.
  rewrite Hu, Hn in Hc. lia.
Qed.

(** X18.  With distinct tab ids, a second call at the same instant closes
    nothing: the first call closed all there was to close. *)
Theorem autoclose_twice_closes_nothing (now : Z) (state : State)
    (browser : Browser) :
  NoDup (map id (open_tabs browser)) ->
  open_tabs
    (browser_after
       (autoclose now (state_after (autoclose now state browser))
                  (browser_after (autoclose now state browser))))
  = open_tabs (browser_after (autoclose now state browser)).
Proof.
  intros Hnd.
  destruct (autoclose_effects now state browser) as (Hs & Hp & H1).
  destruct (autoclose_effects now (state_after (autoclose now state browser))
              (browser_after (autoclose now state browser)))
    as (_ & _ & H2).
  rewrite Hp, Hs in H2.
  destruct (st_paused state) eqn:Epaused.
  - tauto.
  - destruct H2 as (second & Hsecond & Htabs2 & _).
    destruct (autoclose_leaves_rest now state browser Hnd Epaused)
      as (first & rest & Hfirst & Hperm & Hrest).
    rewrite Htabs2.
    rewrite (nothing_left_to_close _ _ _ _ _ _ _ Hfirst Hperm Hrest Hsecond).
    apply tabs_remove_nothing.
Qed.
End AutocloseAgain.

Definition sample_state : State :=
  {| st_settings := mkSettings 600 1 2; st_autocloseTimeoutId := 0;
     st_paused := false; st_history := [page_a] |}.

Definition sample_browser : Browser :=
  {| open_tabs := two_windows; alarm := None;
     storage := {| item_settings := None; item_history := None |} |}.

Lemma two_windows_ids : NoDup (map id (open_tabs sample_browser)).
Proof. simpl. repeat constructor; simpl; intuition lia. Defined.

Lemma autoclose_keeps_floor_witness :
  NoDup (map id (open_tabs sample_browser))
  /\ Z.min (minTabsCount (st_settings sample_state))
           (Z.of_nat (length (unpinned_in 1 (open_tabs sample_browser))))
     <= Z.of_nat
          (length
             (unpinned_in 1
                (open_tabs
                   (browser_after
                      (@autoclose insertion_engine scheme_parser 1000
                         sample_state sample_browser))))).
Proof.
  split; [exact two_windows_ids|].
  apply (@autoclose_keeps_floor insertion_engine scheme_parser 1000
           sample_state sample_browser 1 two_windows_ids).
Defined.

Lemma autoclose_twice_closes_nothing_witness :
  NoDup (map id (open_tabs sample_browser))
  /\ open_tabs
       (browser_after
          (@autoclose insertion_engine scheme_parser 1000
             (state_after
                (@autoclose insertion_engine scheme_parser 1000
                   sample_state sample_browser))
             (browser_after
                (@autoclose insertion_engine scheme_parser 1000
                   sample_state sample_browser))))
     = open_tabs
         (browser_after
            (@autoclose insertion_engine scheme_parser 1000
               sample_state sample_browser)).
Proof.
  split; [exact two_windows_ids|].
  apply (@autoclose_twice_closes_nothing insertion_engine scheme_parser 1000
           sample_state sample_browser two_windows_ids).
Defined.

(** * The listeners *)

Section Listeners.
Context {engine : SortEngine} {parser : UrlParser}.

Lemma autoclose_history_cases (now : Z) (state : State) (browser : Browser) :
  (state_after (autoclose now state browser) = state
   /\ storage (browser_after (autoclose now state browser)) = storage browser)
  \/ (0 < maxHistorySize (st_settings state)
      /\ st_paused state = false
      /\ outcome_of (autoclose now state browser) = Resolved
      /\ (exists closed,
            autoclose_history (st_settings state) closed (st_history state)
            = Some (st_history (state_after (autoclose now state browser))))
      /\ storage (browser_after (autoclose now state browser))
         = if clearHistoryOnExit (st_settings state)
           then storage browser
           else {| item_settings := item_settings (storage browser);
                   item_history :=
                     Some (st_history
                             (state_after (autoclose now state browser))) |}).
Proof.
  unfold autoclose, state_after, browser_after, outcome_of.
  destruct (st_paused state) eqn:Hp; [left; split; reflexivity|].
  destruct (tabsToClose now (st_settings state) _) as [decision|];
    [|left; split; reflexivity].
  cbn [open_tabs alarm storage].
  destruct (0 <? maxHistorySize (st_settings state)) eqn:Hmax;
    [|left; split; reflexivity].
  destruct (autoclose_history _ _ _) as [history|] eqn:Hh;
    [|left; split; reflexivity].
  right. apply Z.ltb_lt in Hmax. cbn [fst snd st_history storage].
  split; [exact Hmax|]. split; [reflexivity|]. split; [reflexivity|].
  split; [eexists; exact Hh|].
  unfold persistHistory. cbn [st_settings st_history].
  destruct (clearHistoryOnExit (st_settings state)); reflexivity.
Qed.

(** X19.  [autoclose] touches the storage only to write the history it has just
    updated, and only when [clearHistoryOnExit] is off; the stored settings
    are never touched. *)
Theorem autoclose_writes_history_only (now : Z) (state : State)
    (browser : Browser) :
  storage (browser_after (autoclose now state browser)) = storage browser
  \/ (clearHistoryOnExit (st_settings state) = false
      /\ storage (browser_after (autoclose now state browser))
         = {| item_settings := item_settings (storage browser);
              item_history :=
                Some (st_history
                        (state_after (autoclose now state browser))) |}).
Proof.
  destruct (autoclose_history_cases now state browser)
    as [[_ H]|(_ & _ & _ & _ & H)]; [left; exact H|].
  destruct (clearHistoryOnExit (st_settings state)).
  - left. exact H.
  - right. split; [reflexivity|exact H].
Qed.

Lemma autoclose_keeps_history_bound (now : Z) (state : State)
    (browser : Browser) :
  history_within_bound state ->
  history_within_bound (state_after (autoclose now state browser)).
Proof.
  intros Hb.
  destruct (autoclose_effects now state browser) as (Hs & _ & _).
  destruct (autoclose_history_cases now state browser)
    as [[-> _]|(Hmax & _ & _ & [closed Hh] & _)]; [exact Hb|].
  unfold history_within_bound. rewrite Hs. intros _.
  unfold autoclose_history in Hh.
  destruct (0 <? maxHistorySize (st_settings state)) eqn:E;
    [|apply Z.ltb_ge in E; lia].
  destruct (filter_exn saveableTab closed) as [saved|]; [|discriminate].
  injection Hh as Hh. rewrite <- Hh.
  pose proof (firstn_le_length
                (Z.to_nat (maxHistorySize (st_settings state)))
                (map closedPage saved ++ st_history state)).
  lia.
Qed.

Lemma slice0_length {A : Type} (l : list A) (finish : Z) :
  0 <= finish -> Z.of_nat (length (slice0 l finish)) <= finish.
Proof.
  intros H. unfold slice0.
  destruct (finish <? 0) eqn:E; [apply Z.ltb_lt in E; lia|].
  pose proof (firstn_le_length (Z.to_nat finish) l). lia.
Qed.

Lemma listener_keeps_history_bound (now : Z) (event : Event) (state : State)
    (browser : Browser) :
  history_within_bound state ->
  history_within_bound (state_after (listener now event state browser)).
Proof.
  intros Hb.
  destruct event as [| | |p a|[newSettings|]|name]; cbn [listener].
  - apply autoclose_keeps_history_bound. exact Hb.
  - apply autoclose_keeps_history_bound. exact Hb.
  - apply autoclose_keeps_history_bound. exact Hb.
  - destruct p as [[|]|], a as [[|]|];
      try (apply autoclose_keeps_history_bound; exact Hb); exact Hb.
  - apply autoclose_keeps_history_bound.
    unfold history_within_bound. cbn [with_history with_settings st_settings
                                      st_history].
    apply slice0_length.
  - exact Hb.
  - destruct (String.eqb name "autoclose");
      [apply autoclose_keeps_history_bound|]; exact Hb.
Qed.

(** X20.  The settings-change listener restores the bound whatever the history
    was: after it, a history size [n >= 0] means at most [n] entries. *)
Theorem settings_change_restores_history_bound (now : Z)
    (newSettings : Settings) (state : State) (browser : Browser) :
  history_within_bound
    (state_after
       (listener now (StorageChanged (Some newSettings)) state browser)).
Proof.
  cbn [listener]. apply autoclose_keeps_history_bound.
  unfold history_within_bound. cbn [with_history with_settings st_settings
                                    st_history].
  apply slice0_length.
Qed.

(** X21.  No listener breaks the bound: along any run of events the history
    never grows past [maxHistorySize]. *)
Theorem run_keeps_history_bound (steps : list (Z * list Tab * Event))
    (state : State) (browser : Browser) :
  history_within_bound state ->
  history_within_bound (fst (run steps state browser)).
Proof.
  revert state browser.
  induction steps as [|[[now tabs] event] steps IH]; intros state browser Hb.
  - exact Hb.
  - cbn [run].
    pose proof (listener_keeps_history_bound now event state
                  {| open_tabs := tabs; alarm := alarm browser;
                     storage := storage browser |} Hb) as Hstep.
    destruct (listener now event state _) as [[state' browser'] outcome].
    apply IH. exact Hstep.
Qed.
End Listeners.

Section Runs.
Context {engine : SortEngine} {parser : UrlParser}.

Lemma autoclose_keeps_storage_clear (now : Z) (state : State)
    (browser : Browser) :
  clearHistoryOnExit (st_settings state) = true ->
  item_history (storage browser) = None ->
  clearHistoryOnExit
    (st_settings (state_after (autoclose now state browser))) = true
  /\ item_history (storage (browser_after (autoclose now state browser)))
     = None.
Proof.
  intros Hflag Hnone.
  destruct (autoclose_effects now state browser) as (-> & _ & _).
  split; [exact Hflag|].
  destruct (autoclose_history_cases now state browser)
    as [[_ ->]|(_ & _ & _ & _ & ->)]; [exact Hnone|].
  rewrite Hflag. exact Hnone.
Qed.

Lemma listener_keeps_storage_clear (now : Z) (tabs : list Tab) (event : Event)
    (state : State) (browser : Browser) :
  keeps_clearing (now, tabs, event) ->
  clearHistoryOnExit (st_settings state) = true ->
  item_history (storage browser) = None ->
  clearHistoryOnExit
    (st_settings (state_after (listener now event state browser))) = true
  /\ item_history (storage (browser_after (listener now event state browser)))
     = None.
Proof.
  unfold keeps_clearing. cbn [snd]. intros Hk Hflag Hnone.
  destruct event as [| | |p a|[newSettings|]|name]; cbn [listener].
  - apply autoclose_keeps_storage_clear; assumption.
  - apply autoclose_keeps_storage_clear; assumption.
  - apply autoclose_keeps_storage_clear; assumption.
  - destruct p as [[|]|], a as [[|]|];
      try (apply autoclose_keeps_storage_clear; assumption);
      (split; assumption).
  - apply autoclose_keeps_storage_clear.
    + exact Hk.
    + cbn [with_storage storage]. unfold persistHistory.
      cbn [with_history with_settings st_settings]. rewrite Hk. reflexivity.
  - split; assumption.
  - destruct (String.eqb name "autoclose");
      [apply autoclose_keeps_storage_clear|split]; assumption.
Qed.

(** X22.  As long as [clearHistoryOnExit] stays on, the history lives in memory
    only: no listener ever writes it to storage. *)
Theorem run_never_stores_history (steps : list (Z * list Tab * Event))
    (state : State) (browser : Browser) :
  clearHistoryOnExit (st_settings state) = true ->
  item_history (storage browser) = None ->
  Forall keeps_clearing steps ->
  item_history (storage (snd (run steps state browser))) = None.
Proof.
  revert state browser.
  induction steps as [|[[now tabs] event] steps IH];
    intros state browser Hflag Hnone Hsteps.
  - exact Hnone.
  - inversion Hsteps as [|? ? Hk Hrest]; subst. cbn [run].
    pose proof (listener_keeps_storage_clear now tabs event state
                  {| open_tabs := tabs; alarm := alarm browser;
                     storage := storage browser |} Hk Hflag Hnone) as Hstep.
    destruct (listener now event state _) as [[state' browser'] outcome].
    destruct Hstep as [Hflag' Hnone'].
    apply IH; assumption.
Qed.

Lemma last_cons_default {A : Type} (l : list A) (a d d' : A) :
  last (a :: l) d = last (a :: l) d'.
Proof.
  revert a; induction l as [|b l IH]; intros a; [reflexivity|].
  change (last (b :: l) d = last (b :: l) d'). apply IH.
Qed.

Lemma listener_while_paused (now : Z) (event : Event) (state : State)
    (browser : Browser) :
  st_paused state = true ->
  event <> ActionClicked ->
  st_paused (state_after (listener now event state browser)) = true
  /\ open_tabs (browser_after (listener now event state browser))
     = open_tabs browser.
Proof.
  intros Hp Hne.
  assert (Hauto : forall st br,
             st_paused st = true ->
             st_paused (state_after (autoclose now st br)) = true
             /\ open_tabs (browser_after (autoclose now st br))
                = open_tabs br).
  { intros st br Hst.
    destruct (autoclose_effects now st br) as (_ & Hp' & H).
    rewrite Hst in H, Hp'. tauto. }
  destruct event as [| | |p a|[newSettings|]|name]; cbn [listener].
  - contradiction.
  - apply Hauto. exact Hp.
  - apply Hauto. exact Hp.
  - destruct p as [[|]|], a as [[|]|];
      try (apply Hauto; exact Hp); (split; [exact Hp|reflexivity]).
  - apply (Hauto _ (with_storage _ browser)). exact Hp.
  - split; [exact Hp|reflexivity].
  - destruct (String.eqb name "autoclose");
      [apply Hauto; exact Hp|split; [exact Hp|reflexivity]].
Qed.

(** X23.  While the script is paused and the button is not clicked, no tab is
    closed: after any run of events the browser still has every tab it
    last reported, and the script is still paused. *)
Theorem paused_run_closes_nothing (steps : list (Z * list Tab * Event))
    (state : State) (browser : Browser) :
  st_paused state = true ->
  Forall (fun step => snd step <> ActionClicked) steps ->
  st_paused (fst (run steps state browser)) = true
  /\ open_tabs (snd (run steps state browser))
     = last (map (fun step => snd (fst step)) steps) (open_tabs browser).
Proof.
  revert state browser.
  induction steps as [|[[now tabs] event] steps IH];
    intros state browser Hp Hsteps.
  - split; [exact Hp|reflexivity].
  - inversion Hsteps as [|? ? Hne Hrest]; subst. cbn [snd] in Hne.
    cbn [run].
    pose proof (listener_while_paused now event state
                  {| open_tabs := tabs; alarm := alarm browser;
                     storage := storage browser |} Hp Hne) as Hstep.
    destruct (listener now event state _) as [[state' browser'] outcome].
    cbn [state_after browser_after fst snd open_tabs] in Hstep.
    destruct Hstep as [Hp' Htabs].
    destruct (IH state' browser' Hp' Hrest) as [IHp IHt].
    split; [exact IHp|].
    rewrite IHt, Htabs. cbn [map fst snd].
    destruct steps as [|step steps]; [reflexivity|].
    cbn [map].
    change (last (snd (fst step) :: map (fun s => snd (fst s)) steps) tabs
            = last (snd (fst step) :: map (fun s => snd (fst s)) steps)
                   (open_tabs browser)).
    apply last_cons_default.
Qed.
End Runs.

Definition sample_steps : list (Z * list Tab * Event) :=
  [(1000, two_windows, TabCreated);
   (2000, two_windows, StorageChanged (Some (mkSettings 600 1 1)));
   (3000, [tab_b], AlarmFired "autoclose")].

Lemma run_keeps_history_bound_witness :
  history_within_bound sample_state
  /\ history_within_bound
       (fst (@run insertion_engine scheme_parser sample_steps sample_state
               sample_browser)).
Proof.
  assert (H : history_within_bound sample_state).
  { unfold history_within_bound. simpl. lia. }
  split; [exact H|].
  apply (@run_keeps_history_bound insertion_engine scheme_parser sample_steps
           sample_state sample_browser H).
Defined.

Lemma run_never_stores_history_witness :
  clearHistoryOnExit (st_settings sample_state) = true
  /\ item_history (storage sample_browser) = None
  /\ Forall keeps_clearing sample_steps
  /\ item_history
       (storage (snd (@run insertion_engine scheme_parser sample_steps
                        sample_state sample_browser))) = None.
Proof.
  assert (H : Forall keeps_clearing sample_steps).
  { repeat constructor. }
  split; [reflexivity|]. split; [reflexivity|]. split; [exact H|].
  apply (@run_never_stores_history insertion_engine scheme_parser
           sample_steps sample_state sample_browser eq_refl eq_refl H).
Defined.

Definition paused_state : State :=
  {| st_settings := mkSettings 600 1 2; st_autocloseTimeoutId := 0;
     st_paused := true; st_history := [page_a] |}.

Lemma paused_run_closes_nothing_witness :
  st_paused paused_state = true
  /\ Forall (fun step => snd step <> ActionClicked) sample_steps
  /\ st_paused (fst (@run insertion_engine scheme_parser sample_steps
                       paused_state sample_browser)) = true
  /\ open_tabs (snd (@run insertion_engine scheme_parser sample_steps
                       paused_state sample_browser))
     = last (map (fun step => snd (fst step)) sample_steps)
            (open_tabs sample_browser).
Proof.
  assert (H : Forall (fun step => snd step <> ActionClicked) sample_steps).
  { repeat constructor; discriminate. }
  split; [reflexivity|]. split; [exact H|].
  apply (@paused_run_closes_nothing insertion_engine scheme_parser
           sample_steps paused_state sample_browser eq_refl H).
Defined.

(** * The settings form *)

Lemma change_keeps_range (edit : Edit) (form : Form) :
  counts_in_range (form_settings form) ->
  counts_in_range (form_settings (change edit form)).
Proof.
  intros [Htabs Hsize].
  destruct edit as [[c|]|[c|]|checked|checked]; cbn [change].
  - destruct (c <=? 0) eqn:E; [split; assumption|].
    apply Z.leb_gt in E. split; cbn; [intros ? [= <-]; lia|exact Hsize].
  - split; assumption.
  - destruct (c <? 0) eqn:E; [split; assumption|].
    apply Z.ltb_ge in E. split; cbn; [exact Htabs|intros ? [= <-]; lia].
  - split; assumption.
  - split; assumption.
  - split; assumption.
Qed.

Lemma change_stores_settings (edit : Edit) (form : Form) :
  (form_settings (change edit form) = form_settings form
   /\ form_storage (change edit form) = form_storage form)
  \/ (item_settings (form_storage (change edit form))
      = Some (form_settings (change edit form))
      /\ item_history (form_storage (change edit form))
         = item_history (form_storage form)).
Proof.
  destruct edit as [[c|]|[c|]|checked|checked]; cbn [change].
  - destruct (c <=? 0); [left|right]; split; reflexivity.
  - left. split; reflexivity.
  - destruct (c <? 0); [left|right]; split; reflexivity.
  - left. split; reflexivity.
  - right. split; reflexivity.
  - right. split; reflexivity.
Qed.

(** X26.  Whatever is typed into the form, the counts stay in range, the stored
    history is not touched, and the stored settings are those the form
    holds unless nothing was ever accepted. *)
Theorem form_keeps_counts_in_range (edits : list Edit) (form : Form) :
  counts_in_range (form_settings form) ->
  counts_in_range (form_settings (changes edits form))
  /\ item_history (form_storage (changes edits form))
     = item_history (form_storage form)
  /\ (item_settings (form_storage (changes edits form))
      = Some (form_settings (changes edits form))
      \/ (form_settings (changes edits form) = form_settings form
          /\ form_storage (changes edits form) = form_storage form)).
Proof.
  unfold changes. revert form.
  induction edits as [|edit edits IH]; intros form Hrange; cbn [fold_left].
  - split; [exact Hrange|]. split; [reflexivity|]. right. split; reflexivity.
  - destruct (IH (change edit form) (change_keeps_range edit form Hrange))
      as (Hr & Hh & Hs).
    split; [exact Hr|].
    destruct (change_stores_settings edit form) as [[Hsame Hst]|[Hset Hhist]].
    + rewrite Hsame, Hst in *. split; [exact Hh|exact Hs].
    + split; [congruence|].
      destruct Hs as [Hs|[Hs1 Hs2]]; [left; exact Hs|].
      left. rewrite Hs1, Hs2. exact Hset.
Qed.

Definition sample_form : Form :=
  {| form_settings := stored defaultSettings;
     form_storage := {| item_settings := None; item_history := None |};
     invalid_minTabsCount := None;
     invalid_maxHistorySize := None |}.

Lemma form_keeps_counts_in_range_witness :
  counts_in_range (form_settings sample_form)
  /\ counts_in_range
       (form_settings
          (changes [EditMinTabsCount (Some 0); EditMaxHistorySize (Some 0);
                    EditMinTabsCount None; EditMinTabsCount (Some 3)]
                   sample_form))
  /\ item_history
       (form_storage
          (changes [EditMinTabsCount (Some 0); EditMaxHistorySize (Some 0);
                    EditMinTabsCount None; EditMinTabsCount (Some 3)]
                   sample_form))
     = item_history (form_storage sample_form)
  /\ (item_settings
        (form_storage
           (changes [EditMinTabsCount (Some 0); EditMaxHistorySize (Some 0);
                     EditMinTabsCount None; EditMinTabsCount (Some 3)]
                    sample_form))
      = Some (form_settings
                (changes [EditMinTabsCount (Some 0);
                          EditMaxHistorySize (Some 0);
                          EditMinTabsCount None; EditMinTabsCount (Some 3)]
                         sample_form))
      \/ (form_settings
            (changes [EditMinTabsCount (Some 0); EditMaxHistorySize (Some 0);
                      EditMinTabsCount None; EditMinTabsCount (Some 3)]
                     sample_form)
          = form_settings sample_form
          /\ form_storage
               (changes [EditMinTabsCount (Some 0);
                         EditMaxHistorySize (Some 0);
                         EditMinTabsCount None; EditMinTabsCount (Some 3)]
                        sample_form)
             = form_storage sample_form)).
Proof.
  assert (H : counts_in_range (form_settings sample_form)).
  { split; intros c [= <-]; lia. }
  split; [exact H|].
  apply (form_keeps_counts_in_range
           [EditMinTabsCount (Some 0); EditMaxHistorySize (Some 0);
            EditMinTabsCount None; EditMinTabsCount (Some 3)]
           sample_form H).
Defined.

(** * Memory and storage *)

Section HistoryInStep.
Context {engine : SortEngine} {parser : UrlParser}.

Lemma autoclose_keeps_history_in_step (now : Z) (state : State)
    (browser : Browser) :
  history_in_step state browser ->
  history_in_step (state_after (autoclose now state browser))
                  (browser_after (autoclose now state browser)).
Proof.
  intros Hsync. unfold history_in_step.
  destruct (autoclose_effects now state browser) as (-> & _ & _).
  destruct (autoclose_history_cases now state browser)
    as [[-> ->]|(_ & _ & _ & _ & ->)]; [exact Hsync|].
  intros ->. reflexivity.
Qed.

Lemma listener_keeps_history_in_step (now : Z) (event : Event) (state : State)
    (browser : Browser) :
  history_in_step state browser ->
  history_in_step (state_after (listener now event state browser))
                  (browser_after (listener now event state browser)).
Proof.
  intros Hsync.
  destruct event as [| | |p a|[newSettings|]|name]; cbn [listener].
  - apply autoclose_keeps_history_in_step. exact Hsync.
  - apply autoclose_keeps_history_in_step. exact Hsync.
  - apply autoclose_keeps_history_in_step. exact Hsync.
  - destruct p as [[|]|], a as [[|]|];
      try (apply autoclose_keeps_history_in_step; exact Hsync); exact Hsync.
  - apply autoclose_keeps_history_in_step.
    unfold history_in_step, persistHistory.
    cbn [with_storage with_history with_settings st_settings st_history
         storage].
    intros ->. reflexivity.
  - exact Hsync.
  - destruct (String.eqb name "autoclose");
      [apply autoclose_keeps_history_in_step|]; exact Hsync.
Qed.

(** X24.  Memory and storage stay in step: if storage holds the history of the
    script whenever [clearHistoryOnExit] is off, it still does after any
    run of events, whether promises were rejected on the way or not. *)
Theorem run_keeps_history_in_step (steps : list (Z * list Tab * Event))
    (state : State) (browser : Browser) :
  history_in_step state browser ->
  history_in_step (fst (run steps state browser))
                  (snd (run steps state browser)).
Proof.
  revert state browser.
  induction steps as [|[[now tabs] event] steps IH]; intros state browser Hs.
  - exact Hs.
  - cbn [run].
    pose proof (listener_keeps_history_in_step now event state
                  {| open_tabs := tabs; alarm := alarm browser;
                     storage := storage browser |} Hs) as Hstep.
    destruct (listener now event state _) as [[state' browser'] outcome].
    apply IH. exact Hstep.
Qed.

(** X25.  A change of settings brings storage in step with memory, whatever
    they were before. *)
Theorem settings_change_puts_history_in_step (now : Z)
    (newSettings : Settings) (state : State) (browser : Browser) :
  history_in_step
    (state_after
       (listener now (StorageChanged (Some newSettings)) state browser))
    (browser_after
       (listener now (StorageChanged (Some newSettings)) state browser)).
Proof.
  cbn [listener]. apply autoclose_keeps_history_in_step.
  unfold history_in_step, persistHistory.
  cbn [with_storage with_history with_settings st_settings st_history
       storage].
  intros ->. reflexivity.
Qed.
End HistoryInStep.

Definition persisting_state : State :=
  {| st_settings :=
       {| minInactiveMilliseconds := 600; minTabsCount := 1;
          maxHistorySize := 2; clearHistoryOnExit := false;
          excludeTabsInGroups := false |};
     st_autocloseTimeoutId := 0; st_paused := false;
     st_history := [page_a] |}.

Definition persisting_browser : Browser :=
  {| open_tabs := [tab_b; tab_c]; alarm := None;
     storage := {| item_settings := None; item_history := Some [page_a] |} |}.

Lemma run_keeps_history_in_step_witness :
  history_in_step persisting_state persisting_browser
  /\ history_in_step
       (fst (@run insertion_engine scheme_parser
               [(1000, [tab_b; tab_c], TabCreated)]
               persisting_state persisting_browser))
       (snd (@run insertion_engine scheme_parser
               [(1000, [tab_b; tab_c], TabCreated)]
               persisting_state persisting_browser)).
Proof.
  assert (H : history_in_step persisting_state persisting_browser).
  { intros _. reflexivity. }
  split; [exact H|].
  apply (@run_keeps_history_in_step insertion_engine scheme_parser
           [(1000, [tab_b; tab_c], TabCreated)]
           persisting_state persisting_browser H).
Defined.

(** * A host that sorts: examples *)

Lemma oldest_closed_first_witness :
  let tabs := [mkTab 1 1 (Some (Fin 50)); mkTab 2 1 (Some (Fin 0));
               mkTab 3 1 (Some (Fin 95))] in
  let r := {| res_tabsToClose := [mkTab 2 1 (Some (Fin 0));
                                  mkTab 1 1 (Some (Fin 50))];
              res_nextCheck := PInf |} in
  sorts_by_lastAccessed insertion_engine
  /\ Forall known_instant tabs
  /\ @perWindowResult insertion_engine 100 (mkSettings 10 1 0) tabs = Some r
  /\ In (mkTab 1 1 (Some (Fin 50))) (res_tabsToClose r)
  /\ In (mkTab 2 1 (Some (Fin 0))) (res_tabsToClose r).
Proof.
  cbv zeta.
  assert (Hk : Forall known_instant
                 [mkTab 1 1 (Some (Fin 50)); mkTab 2 1 (Some (Fin 0));
                  mkTab 3 1 (Some (Fin 95))]).
  { repeat constructor; eexists; reflexivity. }
  split; [exact insertion_engine_sorts|]. split; [exact Hk|].
  split; [reflexivity|]. split; [right; left; reflexivity|].
  apply (@oldest_closed_first insertion_engine insertion_engine_sorts 100
           (mkSettings 10 1 0) _ _ (mkTab 2 1 (Some (Fin 0)))
           (mkTab 1 1 (Some (Fin 50))) Hk eq_refl);
    try reflexivity.
  - right. left. reflexivity.
  - right. left. reflexivity.
Defined.

Lemma window_next_is_earliest_witness :
  let tabs := [mkTab 1 1 (Some (Fin 98)); mkTab 2 1 (Some (Fin 95))] in
  let r := {| res_tabsToClose := []; res_nextCheck := Fin 105 |} in
  sorts_by_lastAccessed insertion_engine
  /\ Forall known_instant tabs
  /\ @perWindowResult insertion_engine 100 (mkSettings 10 1 0) tabs = Some r
  /\ (res_nextCheck r = PInf
      \/ js_le (res_nextCheck r)
               (threshold (mkSettings 10 1 0) (mkTab 1 1 (Some (Fin 98))))
         = true).
Proof.
  cbv zeta.
  assert (Hk : Forall known_instant
                 [mkTab 1 1 (Some (Fin 98)); mkTab 2 1 (Some (Fin 95))]).
  { repeat constructor; eexists; reflexivity. }
  split; [exact insertion_engine_sorts|]. split; [exact Hk|].
  split; [reflexivity|].
  apply (@window_next_is_earliest insertion_engine insertion_engine_sorts 100
           (mkSettings 10 1 0) _ _ (mkTab 1 1 (Some (Fin 98))) Hk eq_refl);
    try reflexivity.
  left. reflexivity.
Defined.

(** * Tightness of the next check *)

Section NextWakeTight.
Context {engine : SortEngine}.
Hypothesis engine_sorts : sorts_by_lastAccessed engine.

Local Abbreviation in_window w := (fun tab : Tab => windowId tab =? w).

Lemma candidates_sorted (settings : Settings) (tabs : list Tab) :
  Forall (candidate_known settings) tabs ->
  StronglySorted lastAccessed_le
    (array_sort lastAccessed_gt
       (filter (closeable settings)
               (filter (fun tab => negb (pinned tab)) tabs))).
Proof.
  intros Hknown. apply engine_sorts.
  apply Forall_forall. intros tab Hin.
  apply filter_In in Hin. destruct Hin as [Hin Hc].
  apply filter_In in Hin. destruct Hin as [Hin Hp].
  rewrite Forall_forall in Hknown.
  apply (Hknown tab Hin); [apply negb_true_iff; exact Hp|exact Hc].
Qed.

(** Within one window: a finite next check is not later than the
    threshold of any candidate still to come. *)
Lemma window_next_before_candidates (now : Z) (settings : Settings)
    (tabs : list Tab) (r : CloseInfo) (tab : Tab) :
  Forall (candidate_known settings) tabs ->
  perWindowResult now settings tabs = Some r ->
  In tab tabs ->
  later_closeable now settings tab = true ->
  res_nextCheck r = PInf
  \/ js_le (res_nextCheck r) (threshold settings tab) = true.
Proof.
  intros Hknown Hr Hin Hlater.
  unfold later_closeable in Hlater.
  apply andb_true_iff in Hlater. destruct Hlater as [Hpc Hge].
  apply andb_true_iff in Hpc. destruct Hpc as [Hp Hc].
  apply negb_true_iff in Hp.
  pose proof (candidates_sorted settings tabs Hknown) as Hsorted.
  apply (StronglySorted_filter _
           (fun tab => js_ge (threshold settings tab) (Fin now))) in Hsorted.
  assert (Hmember :
            In tab (filter (fun tab => js_ge (threshold settings tab) (Fin now))
                      (array_sort lastAccessed_gt
                         (filter (closeable settings)
                            (filter (fun tab => negb (pinned tab)) tabs))))).
  { apply filter_In. split; [|exact Hge].
    apply (Permutation_in _ (array_sort_perm _ _ _)).
    apply filter_In. split; [|exact Hc].
    apply filter_In. split; [exact Hin|]. rewrite Hp. reflexivity. }
  unfold perWindowResult in Hr.
  destruct (_ <=? 0); [injection Hr as <-; left; reflexivity|].
  destruct (_ || _); [injection Hr as <-; left; reflexivity|].
  destruct (filter (fun tab => js_ge _ _) _) as [|first rest] eqn:E;
    [discriminate|].
  injection Hr as <-. right. cbn [res_nextCheck].
  destruct (closeable_later now settings tab Hc Hge) as (z & Hla & Hth & _).
  assert (Hle : lastAccessed_le first tab).
  { destruct Hmember as [<-|Hrest].
    - unfold lastAccessed_le. rewrite Hla. simpl. apply Z.leb_refl.
    - inversion Hsorted as [|? ? _ Hhead]; subst.
      rewrite Forall_forall in Hhead. apply Hhead. exact Hrest. }
  assert (Hfirst : In first (first :: rest)) by (left; reflexivity).
  rewrite <- E in Hfirst. apply filter_In in Hfirst.
  destruct Hfirst as [Hfin Hfge].
  apply closeableTabs_In in Hfin. destruct Hfin as (_ & _ & Hfc).
  destruct (closeable_later now settings first Hfc Hfge)
    as (z1 & Hla1 & Hth1 & _).
  unfold lastAccessed_le in Hle. rewrite Hla, Hla1 in Hle. simpl in Hle.
  rewrite Hth, Hth1. simpl.
  apply Z.leb_le in Hle. apply Z.leb_le. lia.
Qed.

Lemma waiting_decidable (now : Z) (settings : Settings) (tabs : list Tab)
    (w : Z) :
  window_waiting now settings tabs w \/ ~ window_waiting now settings tabs w.
Proof. unfold window_waiting. lia. Qed.

(** C2, amended.  On a host whose sort does put the candidates in
    ascending order of [lastAccessed], and when every candidate has a known
    timestamp: [tabsToClose] returns, and when its next check is finite it
    is an instant [T >= now], not a delay; a candidate of a waiting window
    crosses its threshold at exactly [T]; and no candidate still to come of
    any waiting window crosses its threshold strictly before [T].  A
    window is waiting when this run leaves part of its budget unused and
    one of its candidates is still to come. *)
Theorem next_wake_tight_on_sorting_host (now : Z) (settings : Settings)
    (tabs : list Tab) :
  Forall (candidate_known settings) tabs ->
  exists r,
    tabsToClose now settings tabs = Some r
    /\ (res_nextCheck r = PInf
        \/ exists T first,
             res_nextCheck r = Fin T /\ now <= T
             /\ In first tabs
             /\ later_closeable now settings first = true
             /\ window_waiting now settings tabs (windowId first)
             /\ threshold settings first = Fin T
             /\ forall tab z,
                  In tab tabs ->
                  later_closeable now settings tab = true ->
                  window_waiting now settings tabs (windowId tab) ->
                  threshold settings tab = Fin z ->
                  T <= z).
Proof.
  intros Hknown.
  destruct (decisions_per_window now settings tabs) as (results & Hr & Hall).
  eexists. split; [exact Hr|]. cbn [res_nextCheck].
  pose proof (decisions_ok _ _ _ _ _ Hall) as Hoks.
  destruct (nextCheck_cases _ _ _ _ Hoks)
    as [[Hm _]|(T & _ & _ & Hm & HinT & Hle & _ & _ & _ & _ & _ & Hnow)].
  - left. exact Hm.
  - right.
    apply in_map_iff in HinT. destruct HinT as (rw & Hnext & Hinrw).
    destruct (Forall2_In_right _ _ _ rw Hall Hinrw) as (w & _ & Hrw).
    destruct (perWindowResult_inv now settings (filter (in_window w) tabs))
      as (rw' & Hrw' & Hok).
    assert (rw' = rw) by congruence. subst rw'.
    destruct (next_ok _ _ _ _ Hok)
      as [Hinf|(first & Hin & Hp & Hc & Hge & Hfirst)]; [congruence|].
    apply filter_In in Hin. destruct Hin as [Hin Hw].
    apply Z.eqb_eq in Hw.
    exists T, first.
    split; [exact Hm|]. split; [exact Hnow|]. split; [exact Hin|].
    split; [unfold later_closeable; rewrite Hp, Hc, Hge; reflexivity|].
    split.
    { rewrite Hw.
      destruct (waiting_decidable now settings tabs w) as [Hwait|Hnot];
        [exact Hwait|].
      apply (window_next_finite now settings tabs w rw Hrw) in Hnot.
      congruence. }
    split; [congruence|].
    intros tab z Htab Hlater Hwait Hz.
    assert (Hws : In (windowId tab) (array_from_set (map windowId tabs))).
    { apply array_from_set_In, in_map. exact Htab. }
    destruct (Forall2_In_left _ _ _ _ Hall Hws) as (rt & Hinrt & Hrt).
    assert (Hwindow : Forall (candidate_known settings)
                        (filter (in_window (windowId tab)) tabs)).
    { apply Forall_forall. intros x Hx. apply filter_In in Hx.
      rewrite Forall_forall in Hknown. apply Hknown. tauto. }
    assert (Htab' : In tab (filter (in_window (windowId tab)) tabs)).
    { apply filter_In. split; [exact Htab|apply Z.eqb_refl]. }
    rewrite Forall_forall in Hle. specialize (Hle rt Hinrt).
    destruct (window_next_before_candidates now settings _ rt tab
                Hwindow Hrt Htab' Hlater) as [Hinf|Hbefore].
    + apply (window_next_finite now settings tabs (windowId tab) rt Hrt)
        in Hinf.
      contradiction.
    + rewrite Hz in Hbefore.
      destruct (res_nextCheck rt) as [v| | |]; simpl in Hle, Hbefore;
        try discriminate.
      apply Z.leb_le in Hle. apply Z.leb_le in Hbefore. lia.
Qed.
End NextWakeTight.

Lemma next_wake_tight_on_sorting_host_witness :
  sorts_by_lastAccessed insertion_engine
  /\ Forall (candidate_known (mkSettings 10 1 0)) waiting_and_spent
  /\ exists r,
       @tabsToClose insertion_engine 100 (mkSettings 10 1 0) waiting_and_spent
       = Some r
       /\ (res_nextCheck r = PInf
           \/ exists T first,
                res_nextCheck r = Fin T /\ 100 <= T
                /\ In first waiting_and_spent
                /\ later_closeable 100 (mkSettings 10 1 0) first = true
                /\ window_waiting 100 (mkSettings 10 1 0) waiting_and_spent
                     (windowId first)
                /\ threshold (mkSettings 10 1 0) first = Fin T
                /\ forall tab z,
                     In tab waiting_and_spent ->
                     later_closeable 100 (mkSettings 10 1 0) tab = true ->
                     window_waiting 100 (mkSettings 10 1 0) waiting_and_spent
                       (windowId tab) ->
                     threshold (mkSettings 10 1 0) tab = Fin z ->
                     T <= z).
Proof.
  assert (Hk : Forall (candidate_known (mkSettings 10 1 0)) waiting_and_spent).
  { repeat constructor; intros _ _; eexists; reflexivity. }
  split; [exact insertion_engine_sorts|]. split; [exact Hk|].
  apply (@next_wake_tight_on_sorting_host insertion_engine
           insertion_engine_sorts 100 (mkSettings 10 1 0) waiting_and_spent Hk).
Defined.

(** The run of the witness: tab 3 is closed, the next check is 105, and
    tab 4 of the window without budget is due before it, at 103. *)
Example waiting_and_spent_run :
  @tabsToClose insertion_engine 100 (mkSettings 10 1 0) waiting_and_spent
  = Some {| res_tabsToClose := [mkTab 3 2 (Some (Fin 0))];
            res_nextCheck := Fin 105 |}
  /\ threshold (mkSettings 10 1 0) (mkTab 4 2 (Some (Fin 93))) = Fin 103.
Proof. split; reflexivity. Qed.

(** Without the condition on the host the last part fails: the TimSort
    engine leaves [98, 95] as it is and answers 108, while the tab accessed
    at 95 is due at 105. *)
Example next_check_late_without_sorting :
  @tabsToClose timsort_engine 100 (mkSettings 10 1 0)
     [mkTab 1 1 (Some (Fin 98)); mkTab 2 1 (Some (Fin 95))]
  = Some {| res_tabsToClose := []; res_nextCheck := Fin 108 |}
  /\ threshold (mkSettings 10 1 0) (mkTab 2 1 (Some (Fin 95))) = Fin 105.
Proof. split; reflexivity. Qed.
